(** * Session/transport lifecycle of the Haloscan MCP HTTP server

    A shallow embedding of [src/build/http-server.js]: the Express
    middleware stack, the Access Guard, the SSE and command endpoints with
    the process-wide registry they share, the tool catalog resolver and the
    global error handler.

    Conventions of the embedding:
    - the registry ([transports], [activeConnections]) is an explicit
      state threaded through every handler;
    - a handler either answers, falls through to the next layer
      ([next()]), or throws; a thrown value is a JavaScript error object;
    - what the code reads from the outside world on each request (clock,
      uptime, the session id minted by the SDK transport, the runtime's
      tool table) is an explicit input;
    - calls into the SDK and into Node ([setHeader],
      [new SSEServerTransport], [server.connect], [handlePostMessage]) are
      collaborators that return normally; their effect is recorded in the
      outcome of the handler, not executed.  [socket.setTimeout] is the
      exception: it throws for a timeout out of range, and the error
      object it throws is an input;
    - of the console output only the error handler's entry is kept; the
      other [console.log] calls print and have no further effect. *)

From Stdlib Require Import ZArith String Ascii List Bool Lia DecimalString.
From stdpp Require Import base gmap strings list fin_maps.

Local Open Scope string_scope.
Local Open Scope Z_scope.

(** ** JavaScript values *)

Module Js.

(** Plain-data JavaScript values: what JSON bodies and the runtime's tool
    table are made of.  An object is its own enumerable properties in
    enumeration order.  Numbers are integers or [NaN]; no numeric leaf is
    ever inspected beyond its truthiness. *)
#[warnings="-register-all"] Inductive val : Type :=
  | Undefined
  | Null
  | Bool (b : bool)
  | Num (z : Z)
  | NaN
  | Str (s : string)
  | Arr (items : list val)
  | Obj (props : list (string * val))
  | Fun.

(** An error object as thrown by the language or a library. *)
Record error : Type := mkError { err_name : string; err_message : string }.

(** The completion of a statement list: normal, or abrupt by [throw]. *)
Inductive completion (A : Type) : Type :=
  | Return (a : A)
  | Throw (e : error).
Arguments Return {A} a.
Arguments Throw {A} e.

Definition bind {A B} (c : completion A) (k : A -> completion B) : completion B :=
  match c with
  | Return a => k a
  | Throw e => Throw e
  end.

Notation "'let*' x ':=' c 'in' k" := (bind c (fun x => k))
  (at level 10, x name, c at level 100, k at level 200).

(** [try { body } catch (error) { handler }] *)
Definition try_catch {A} (body : completion A) (handler : error -> A) : A :=
  match body with
  | Return a => a
  | Throw e => handler e
  end.

(** [ToBoolean] *)
Definition truthy (v : val) : bool :=
  match v with
  | Undefined | Null | NaN => false
  | Bool b => b
  | Num z => negb (z =? 0)%Z
  | Str s => negb (String.eqb s "")
  | Arr _ | Obj _ | Fun => true
  end.

(** [typeof v] *)
Definition typeof (v : val) : string :=
  match v with
  | Undefined => "undefined"
  | Null | Arr _ | Obj _ => "object"
  | Bool _ => "boolean"
  | Num _ | NaN => "number"
  | Str _ => "string"
  | Fun => "function"
  end.

Fixpoint assoc (k : string) (props : list (string * val)) : val :=
  match props with
  | [] => Undefined
  | (k', v) :: rest => if String.eqb k k' then v else assoc k rest
  end.

(** [v.k] for the property names the server reads from tool records
    ([parameters], [shape], [properties], [required], [description],
    [callback], and [name] on the descriptors it built): none is inherited
    from a built-in prototype, so only own properties of plain objects
    answer; reading through [undefined] or [null] throws. *)
Definition get (v : val) (k : string) : completion val :=
  match v with
  | Undefined =>
      Throw (mkError "TypeError" ("Cannot read properties of undefined (reading '" ++ k ++ "')"))
  | Null =>
      Throw (mkError "TypeError" ("Cannot read properties of null (reading '" ++ k ++ "')"))
  | Obj props => Return (assoc k props)
  | _ => Return Undefined
  end.

(** [a || b] *)
Definition or_else (a b : val) : val := if truthy a then a else b.

(** [Array.isArray] *)
Definition isArray (v : val) : bool :=
  match v with Arr _ => true | _ => false end.

Definition index_key (i : nat) : string := NilEmpty.string_of_uint (Nat.to_uint i).

(** [Object.entries] / [Object.keys]; on [undefined] and [null] both throw. *)
Definition entries (v : val) : completion (list (string * val)) :=
  match v with
  | Undefined | Null =>
      Throw (mkError "TypeError" "Cannot convert undefined or null to object")
  | Obj props => Return props
  | Arr items => Return (imap (fun i x => (index_key i, x)) items)
  | Str s => Return (imap (fun i c => (index_key i, Str (String c ""))) (list_ascii_of_string s))
  | _ => Return []
  end.

Definition keys (v : val) : completion (list string) :=
  let* es := entries v in Return (map fst es).

(** [arr.map(f)] for a callback that may throw: left to right, stopping at
    the first throw. *)
Fixpoint map_throwing {A B} (f : A -> completion B) (l : list A) : completion (list B) :=
  match l with
  | [] => Return []
  | a :: rest =>
      let* b := f a in
      let* bs := map_throwing f rest in
      Return (b :: bs)
  end.

(** [s.startsWith(p)] and [s.substring(n)] on single-byte strings. *)
Definition startsWith (s p : string) : bool := String.prefix p s.

Fixpoint substring (n : nat) (s : string) : string :=
  match n, s with
  | O, _ => s
  | S n', String _ s' => substring n' s'
  | S _, EmptyString => EmptyString
  end.

(** Lookup [o[k]] on an object literal used as a dictionary.  The object
    created by [{}] inherits from [Object.prototype], so a key that is not
    an own property still answers when it names one of the prototype's
    members. *)
Definition object_prototype_keys : list string :=
  [ "constructor"; "__defineGetter__"; "__defineSetter__"; "hasOwnProperty";
    "__lookupGetter__"; "__lookupSetter__"; "isPrototypeOf";
    "propertyIsEnumerable"; "toString"; "valueOf"; "__proto__";
    "toLocaleString" ].

Inductive lookup_result (V : Type) : Type :=
  | Own (v : V)          (* an own property: a value stored by the program *)
  | Inherited            (* a member of Object.prototype: truthy, not a V *)
  | Absent.              (* undefined *)
Arguments Own {V} v.
Arguments Inherited {V}.
Arguments Absent {V}.

Definition inherited (k : string) : bool :=
  existsb (String.eqb k) object_prototype_keys.

Definition dict_get {V} (o : gmap string V) (k : string) : lookup_result V :=
  match o !! k with
  | Some v => Own v
  | None => if inherited k then Inherited else Absent
  end.

End Js.

Import Js.

(** ** Configuration, registry state, requests *)

(** The module-level constants of lines 12-19 that decide what the
    handlers answer, computed once at startup, and the one environment
    variable read per request.  [parseInt] yields an integer or [NaN];
    [NaN] is [None].  (The infinite value it gives for a numeral of
    several hundred digits is not represented.) *)
Record Config : Type := {
  AUTH_ENABLED : bool;
  env_API_TOKEN : option string;        (* process.env.API_TOKEN *)
  NODE_ENV : string;
  SERVER_NAME : string;
  SERVER_VERSION : string;
  MAX_CONNECTIONS : option Z;
  CONNECTION_TIMEOUT : option Z
}.

(** [a >= b] for an integer [a] and a number [b] that may be [NaN]. *)
Definition num_ge (a : Z) (b : option Z) : bool :=
  match b with
  | Some m => (m <=? a)%Z
  | None => false
  end.

(** [socket.setTimeout(msecs)] accepts a finite, non-negative number of
    milliseconds and throws a [RangeError] for anything else; the handler
    passes [CONNECTION_TIMEOUT * 1000]. *)
Definition timeout_in_range (seconds : option Z) : bool :=
  match seconds with
  | Some s => (0 <=? s * 1000)%Z
  | None => false
  end.

Definition num_val (n : option Z) : val :=
  match n with Some z => Num z | None => NaN end.

(** An [SSEServerTransport]: the SDK mints [sessionId] in the constructor. *)
Record Transport : Type := mkTransport {
  endpoint : string;
  sessionId : string
}.

(** [const transports = {}] and [let activeConnections = 0]. *)
Record State : Type := mkState {
  transports : gmap string Transport;
  activeConnections : Z
}.

Definition init : State := {| transports := ∅; activeConnections := 0 |}.

Inductive Method : Type := GET | HEAD | POST | OPTIONS | OtherMethod.

(** What [express.json()] makes of the request body. *)
Inductive Body : Type :=
  | NoBody
  | Json (payload : val)
  | BadJson (e : error).

Record Request : Type := {
  method : Method;
  path : string;                         (* req.path *)
  authorization : option string;         (* req.headers.authorization *)
  query_sessionId : option string;       (* req.query.sessionId, one value *)
  body : Body
}.

(** Inputs taken from the environment while one request is served. *)
Record World : Type := {
  now : string;                          (* new Date().toISOString() *)
  uptime : val;                          (* process.uptime() *)
  mintedSessionId : string;              (* sessionId of a transport built now *)
  server_registeredTools : val;          (* server._registeredTools *)
  setTimeout_error : error               (* what socket.setTimeout throws *)
}.

(** What a handler did to the response, or which collaborator it handed
    the request to. *)
Inductive Outcome : Type :=
  | Send (status : Z) (payload : val)            (* res.status(n).send(obj) *)
  | Preflight                                    (* cors: 204, empty *)
  | Redirect (location : string)                 (* res.redirect *)
  | EventStream (t : Transport)                  (* server.connect(transport) *)
  | HandlePostMessage (t : Transport) (req : Request)
  | DefaultNotFound.                             (* no layer answered *)

Inductive Flow : Type :=
  | Next                                         (* next() *)
  | Done (o : Outcome).

Record LogEntry : Type := {
  log_text : string;
  log_error : option error
}.

Definition json_error (error message : string) : val :=
  Obj [("error", Str error); ("message", Str message)].

(** ** Handlers *)

Section Server.

Variable cfg : Config.

(** *** Access Guard (lines 21-48) *)
Definition authorizeRequest (req : Request) : Flow :=
  if negb (AUTH_ENABLED cfg) then Next
  else
    match authorization req with
    | None =>
        Done (Send 401 (json_error "Unauthorized"
                          "Authorization header with Bearer token required"))
    | Some authHeader =>
        if negb (truthy (Str authHeader)) || negb (startsWith authHeader "Bearer ")
        then Done (Send 401 (json_error "Unauthorized"
                               "Authorization header with Bearer token required"))
        else
          let token := substring 7 authHeader in
          if negb (bool_decide (Some token = env_API_TOKEN cfg))
          then Done (Send 403 (json_error "Forbidden" "Invalid authorization token"))
          else Next
    end.

(** *** Streaming endpoint (lines 87-118)

    Below the limit the handler sets the headers of an event stream and
    the socket timeout (line 101), which throws when the configured
    timeout is out of range; then it builds the transport, records it,
    and hands it to [server.connect].  The id is the UUID the SDK gave
    the transport, so the assignment of line 103 creates or overwrites
    an own property. *)
Definition sse (w : World) (st : State) : State * completion Flow :=
  if num_ge (activeConnections st) (MAX_CONNECTIONS cfg) then
    (st, Return (Done (Send 503 (json_error "Service Unavailable"
                                   "Maximum number of connections reached"))))
  else if negb (timeout_in_range (CONNECTION_TIMEOUT cfg)) then
    (st, Throw (setTimeout_error w))
  else
    let transport := mkTransport "/messages" (mintedSessionId w) in
    let st1 := mkState (<[sessionId transport := transport]> (transports st))
                       (activeConnections st) in
    let st2 := mkState (transports st1) (activeConnections st1 + 1) in
    (st2, Return (Done (EventStream transport))).

(** The listener installed by [res.on("close", ...)] (lines 109-115); it
    closes over [transport]. *)
Definition on_close (transport : Transport) (st : State) : State * completion unit :=
  let st1 := mkState (delete (sessionId transport) (transports st))
                     (activeConnections st) in
  let st2 := mkState (transports st1) (activeConnections st1 - 1) in
  (st2, Return tt).

(** *** Command endpoint (lines 120-139) *)
Definition messages (req : Request) (st : State) : State * completion Flow :=
  let sessionId := query_sessionId req in
  match sessionId with
  | None | Some "" =>
      (st, Return (Done (Send 400 (json_error "Bad Request"
                                     "sessionId query parameter is required"))))
  | Some sessionId =>
      match dict_get (transports st) sessionId with
      | Own transport => (st, Return (Done (HandlePostMessage transport req)))
      | Inherited =>
          (st, Throw (mkError "TypeError" "transport.handlePostMessage is not a function"))
      | Absent =>
          (st, Return (Done (Send 404 (json_error "Not Found"
                                         "No active session found for the provided sessionId"))))
      end
  end.

(** *** Tool catalog (lines 141-311) *)

(** The diagnostic block of lines 143-168: it only prints, but
    [Object.keys] and the property reads it performs may throw. *)
Definition debugDump (tools : val) : completion unit :=
  if truthy tools then
    if String.eqb (typeof tools) "object" then
      let* es := entries tools in
      match es with
      | [] => Return tt
      | (firstKey, firstTool) :: _ =>
          let* _ := keys firstTool in
          let* _ := get firstTool "callback" in
          let* parameters := get firstTool "parameters" in
          if truthy parameters then
            let* _ := keys parameters in Return tt
          else Return tt
      end
    else Return tt
  else Return tt.

(** The callback of [Object.entries(toolsObj).map] (lines 176-203). *)
Definition normalizeTool (entry : string * val) : completion val :=
  let name := fst entry in
  let tool := snd entry in
  let* parameters := get tool "parameters" in
  let* properties :=
    if truthy parameters then
      let* shape := get parameters "shape" in
      if truthy shape then Return shape
      else
        let* props := get parameters "properties" in
        if truthy props then Return props else Return (Obj [])
    else Return (Obj []) in
  let* required :=
    if truthy parameters then
      let* req := get parameters "required" in
      if truthy req && isArray req then Return req else Return (Arr [])
    else Return (Arr []) in
  let* description := get tool "description" in
  Return (Obj [ ("name", Str name);
                ("description", or_else description (Str ""));
                ("parameters", Obj [("properties", properties);
                                    ("required", required)]) ]).

(** The body of the [try] block (lines 173-205). *)
Definition extractTools (tools : val) : completion (list val) :=
  if truthy tools then
    if String.eqb (typeof tools) "object" then
      let* es := entries tools in
      map_throwing normalizeTool es
    else Return []
  else Return [].

(** The callback of [registeredTools.every] (lines 222-229). *)
Definition validTool (tool : val) : completion bool :=
  let* parameters := get tool "parameters" in
  let hasParameters := truthy parameters && String.eqb (typeof parameters) "object" in
  let* name := get tool "name" in
  Return (truthy name && String.eqb (typeof name) "string" && hasParameters).

(** [arr.every(f)]: stops at the first [false]. *)
Fixpoint every (f : val -> completion bool) (l : list val) : completion bool :=
  match l with
  | [] => Return true
  | x :: rest =>
      let* ok := f x in
      if ok then every f rest else Return false
  end.

Definition tool (name description : string) (properties : list (string * val))
    (required : list string) : val :=
  Obj [ ("name", Str name);
        ("description", Str description);
        ("parameters", Obj [("properties", Obj properties);
                            ("required", Arr (map Str required))]) ].

Definition getHardcodedTools : list val :=
  [ tool "set_api_key" "Définir la clé API."
      [("apiKey", Obj [("type", Str "string");
                       ("description", Str "Your Haloscan API key")])]
      ["apiKey"];
    tool "get_user_credit" "Obtenir les informations de crédit de l'utilisateur."
      [] [];
    tool "get_keywords_overview" "Obtenir un aperçu des mots-clés."
      [("keyword", Obj [("type", Str "string");
                        ("description", Str "Seed keyword")]);
       ("requested_data", Obj [("type", Str "array");
                               ("items", Obj [("type", Str "string")]);
                               ("description", Str "Specific data fields to request")])]
      ["keyword"; "requested_data"];
    tool "get_keywords_match" "Obtenir la correspondance des mots-clés."
      [("keyword", Obj [("type", Str "string");
                        ("description", Str "Seed keyword")])]
      ["keyword"] ].

(** Lines 170-234: the value of [registeredTools] when the response is
    built. *)
Definition resolveTools (tools : val) : completion (list val) :=
  let registeredTools := try_catch (extractTools tools) (fun _ => []) in
  if (length registeredTools =? 0)%nat then Return getHardcodedTools
  else
    let* hasValidData := every validTool registeredTools in
    if negb hasValidData then Return getHardcodedTools
    else Return registeredTools.

Definition toolsInfo (w : World) (st : State) : State * completion Flow :=
  (st,
   let* _ := debugDump (server_registeredTools w) in
   let* tools := resolveTools (server_registeredTools w) in
   Return (Done (Send 200 (Obj [
     ("server", Str (SERVER_NAME cfg));
     ("version", Str (SERVER_VERSION cfg));
     ("tools", Arr tools);
     ("endpoints", Obj [("sse", Str "/sse"); ("messages", Str "/messages");
                        ("health", Str "/health"); ("tools", Str "/tools-info")]);
     ("stats", Obj [("activeConnections", Num (activeConnections st));
                    ("maxConnections", num_val (MAX_CONNECTIONS cfg));
                    ("uptime", uptime w)]) ])))).

(** *** Health, root, error handler (lines 313-335) *)
Definition health (w : World) (st : State) : State * Flow :=
  (st, Done (Send 200 (Obj [
     ("status", Str "ok");
     ("server", Str (SERVER_NAME cfg));
     ("version", Str (SERVER_VERSION cfg));
     ("uptime", uptime w);
     ("activeConnections", Num (activeConnections st));
     ("environment", Str (NODE_ENV cfg)) ]))).

Definition root : Flow := Done (Redirect "/tools-info").

Definition errorHandler (w : World) (err : error) : LogEntry * Outcome :=
  let timestamp := now w in
  ({| log_text := "[" ++ timestamp ++ "] Server error:"; log_error := Some err |},
   Send 500 (json_error "Internal Server Error"
               (if String.eqb (NODE_ENV cfg) "development"
                then err_message err
                else "An unexpected error occurred"))).

End Server.

(** ** The middleware stack *)

Module Express.

(** Route and mount paths are matched without regard to letter case and
    with an optional trailing slash (the router's defaults). *)
Definition lower_ascii (c : ascii) : ascii :=
  let n := nat_of_ascii c in
  if ((65 <=? n) && (n <=? 90))%nat then ascii_of_nat (n + 32) else c.

Fixpoint lower (s : string) : string :=
  match s with
  | EmptyString => EmptyString
  | String c rest => String (lower_ascii c) (lower rest)
  end.

(** [app.METHOD(p, ...)]: the whole path is [p], or [p/]. *)
Definition route_matches (p path : string) : bool :=
  if String.eqb p "/" then String.eqb path "/" || String.eqb path ""
  else String.eqb (lower path) p || String.eqb (lower path) (p ++ "/").

(** [app.use(p, ...)]: [p] is a prefix of the path ending at a segment
    boundary. *)
Definition mount_matches (p path : string) : bool :=
  String.eqb (lower path) p || String.prefix (p ++ "/") (lower path).

Definition Layer : Type := Request -> World -> State -> State * completion Flow.

Definition pass : State -> State * completion Flow := fun st => (st, Return Next).

Definition use (ps : list string) (h : Layer) : Layer :=
  fun req w st =>
    if existsb (fun p => mount_matches p (path req)) ps then h req w st else pass st.

(** [app.get] also serves [HEAD]. *)
Definition get (p : string) (h : Layer) : Layer :=
  fun req w st =>
    match method req with
    | GET | HEAD => if route_matches p (path req) then h req w st else pass st
    | _ => pass st
    end.

Definition post (p : string) (h : Layer) : Layer :=
  fun req w st =>
    match method req with
    | POST => if route_matches p (path req) then h req w st else pass st
    | _ => pass st
    end.

(** [app.options("*", ...)] *)
Definition options_any (h : Layer) : Layer :=
  fun req w st =>
    match method req with
    | OPTIONS => h req w st
    | _ => pass st
    end.

(** The request logger of lines 54-58: it prints and calls [next()]. *)
Definition request_logger : Layer := fun _ _ st => pass st.

(** [cors(...)]: a preflight request is answered by the middleware. *)
Definition cors : Layer :=
  fun req _ st =>
    match method req with
    | OPTIONS => (st, Return (Done Preflight))
    | _ => pass st
    end.

(** [express.json()]: a body that does not parse is an error passed to
    [next(err)]. *)
Definition json : Layer :=
  fun req _ st =>
    match body req with
    | BadJson e => (st, Throw e)
    | _ => pass st
    end.

End Express.

Record Reply : Type := {
  state_after : State;
  outcome : Outcome;
  console_error : list LogEntry
}.

Section App.

Variable cfg : Config.

(** The handlers as the stack calls them. *)
Definition guard_layer : Express.Layer :=
  fun req _ st => (st, Return (authorizeRequest cfg req)).
Definition sse_layer : Express.Layer :=
  fun _ w st => sse cfg w st.
Definition messages_layer : Express.Layer :=
  fun req _ st => messages req st.
Definition toolsInfo_layer : Express.Layer :=
  fun _ w st => toolsInfo cfg w st.
Definition health_layer : Express.Layer :=
  fun _ w st => let r := health cfg w st in (fst r, Return (snd r)).
Definition root_layer : Express.Layer :=
  fun _ _ st => (st, Return root).

(** The layers in registration order (lines 54-326). *)
Definition stack : list Express.Layer :=
  [ Express.request_logger;
    Express.cors;
    Express.options_any (fun _ _ st => (st, Return (Done (Send 200 (Str "OK")))));
    Express.json;
    Express.use ["/sse"; "/messages"] guard_layer;
    Express.get "/sse" sse_layer;
    Express.post "/messages" messages_layer;
    Express.get "/tools-info" toolsInfo_layer;
    Express.get "/health" health_layer;
    Express.get "/" root_layer ].

(** The router: layers run in order until one answers; a throw, or
    [next(err)], skips to the error handler registered last (lines
    328-335). *)
Fixpoint run (layers : list Express.Layer) (req : Request) (w : World) (st : State) : Reply :=
  match layers with
  | [] => {| state_after := st; outcome := DefaultNotFound; console_error := [] |}
  | layer :: rest =>
      match layer req w st with
      | (st', Return Next) => run rest req w st'
      | (st', Return (Done o)) =>
          {| state_after := st'; outcome := o; console_error := [] |}
      | (st', Throw err) =>
          let r := errorHandler cfg w err in
          {| state_after := st'; outcome := snd r; console_error := [fst r] |}
      end
  end.

Definition app (req : Request) (w : World) (st : State) : Reply :=
  run stack req w st.

End App.

(** ** Executions of the server *)

(** The events that touch the registry: a connection attempt reaching the
    streaming endpoint (with the id the SDK would mint for it), the close
    of an open stream, and a command request. *)
Inductive Event : Type :=
  | Connect (sid : string)
  | Close (sid : string)
  | Command (req : Request).

Definition range_error : error :=
  mkError "RangeError" "The value of msecs is out of range".

Definition world_with (sid : string) : World :=
  {| now := ""; uptime := Num 0; mintedSessionId := sid;
     server_registeredTools := Undefined; setTimeout_error := range_error |}.

Section Executions.

Variable cfg : Config.

Definition step (st : State) (e : Event) : State :=
  match e with
  | Connect sid => fst (sse cfg (world_with sid) st)
  | Close sid =>
      match transports st !! sid with
      | Some transport => fst (on_close transport st)
      | None => st
      end
  | Command req => fst (messages req st)
  end.

(** An event is feasible in a state when the environment can produce it:
    the SDK never mints an id that already names something in
    [transports] (and mints none for an attempt that builds no
    transport), and only a stream that is open (its listener installed
    and not yet fired) can close. *)
Definition feasible (st : State) (e : Event) : bool :=
  match e with
  | Connect sid =>
      num_ge (activeConnections st) (MAX_CONNECTIONS cfg)
      || negb (timeout_in_range (CONNECTION_TIMEOUT cfg))
      || match dict_get (transports st) sid with Absent => true | _ => false end
  | Close sid => bool_decide (is_Some (transports st !! sid))
  | Command _ => true
  end.

Fixpoint feasible_trace (st : State) (es : list Event) : bool :=
  match es with
  | [] => true
  | e :: rest => feasible st e && feasible_trace (step st e) rest
  end.

(** Every state the server passes through, the initial one first. *)
Fixpoint states (st : State) (es : list Event) : list State :=
  st :: match es with
        | [] => []
        | e :: rest => states (step st e) rest
        end.

Definition run_trace (es : list Event) : State := fold_left step es init.

End Executions.

(** ** Start-up configuration (lines 12-19) *)

Section Startup.

(** [parseInt] of the language, as a function from the strings the
    environment may hold to an integer or [NaN]. *)
Variable parseInt : string -> option Z.

(** [process.env.X || d] *)
Definition env_or (env : gmap string string) (x d : string) : string :=
  match env !! x with
  | Some s => if truthy (Str s) then s else d
  | None => d
  end.

(** The constants as the module computes them from [process.env] once
    [dotenv.config()] has run. *)
Definition load_config (env : gmap string string) : Config := {|
  AUTH_ENABLED := bool_decide (env !! "AUTH_ENABLED" = Some "true");
  env_API_TOKEN := env !! "API_TOKEN";
  NODE_ENV := env_or env "NODE_ENV" "development";
  SERVER_NAME := env_or env "MCP_SERVER_NAME" "Haloscan SEO Tools";
  SERVER_VERSION := env_or env "MCP_SERVER_VERSION" "1.0.0";
  MAX_CONNECTIONS := parseInt (env_or env "MCP_MAX_CONNECTIONS" "100");
  CONNECTION_TIMEOUT := parseInt (env_or env "MCP_CONNECTION_TIMEOUT" "3600")
|}.

End Startup.

(** * Vocabulary of the statements *)

(** What holds of every state the server can be in: the counter is the
    number of own keys of [transports], every transport is stored under
    its own id, a non-empty registry never exceeds the limit, and it is
    non-empty only under a timeout the socket accepts. *)
Record consistent (cfg : Config) (st : State) : Prop := {
  count_is_size : activeConnections st = Z.of_nat (size (transports st));
  keyed_by_id : ∀ k t, transports st !! k = Some t → sessionId t = k;
  within_limit : ∀ m, MAX_CONNECTIONS cfg = Some m →
                      0 < activeConnections st → activeConnections st ≤ m;
  open_means_timeout : 0 < activeConnections st →
                       timeout_in_range (CONNECTION_TIMEOUT cfg) = true
}.

(** The settings of the repository's sample environment file. *)
Definition sample_cfg : Config := {|
  AUTH_ENABLED := true;
  env_API_TOKEN := Some "your-secure-token-here";
  NODE_ENV := "development";
  SERVER_NAME := "Haloscan SEO Tools";
  SERVER_VERSION := "1.0.0";
  MAX_CONNECTIONS := Some 100;
  CONNECTION_TIMEOUT := Some 3600
|}.

(** The same with room for two sessions, and a production variant. *)
Definition two_cfg : Config := {|
  AUTH_ENABLED := true;
  env_API_TOKEN := Some "your-secure-token-here";
  NODE_ENV := "development";
  SERVER_NAME := "Haloscan SEO Tools";
  SERVER_VERSION := "1.0.0";
  MAX_CONNECTIONS := Some 2;
  CONNECTION_TIMEOUT := Some 3600
|}.

Definition production_cfg : Config := {|
  AUTH_ENABLED := false;
  env_API_TOKEN := None;
  NODE_ENV := "production";
  SERVER_NAME := "Haloscan SEO Tools";
  SERVER_VERSION := "1.0.0";
  MAX_CONNECTIONS := Some 100;
  CONNECTION_TIMEOUT := Some 3600
|}.

Definition capacity_reply : Flow :=
  Done (Send 503 (json_error "Service Unavailable"
                    "Maximum number of connections reached")).



Definition ghost : Transport := mkTransport "/messages" "never-registered".
Definition session_A : Transport := mkTransport "/messages" "A".

Definition bad_request_reply : Flow :=
  Done (Send 400 (json_error "Bad Request" "sessionId query parameter is required")).
Definition not_found_reply : Flow :=
  Done (Send 404 (json_error "Not Found"
                    "No active session found for the provided sessionId")).

Definition command (sid : option string) : Request :=
  {| method := POST; path := "/messages"; authorization := None;
     query_sessionId := sid; body := Json (Obj []) |}.

Definition unauthorized_reply : Flow :=
  Done (Send 401 (json_error "Unauthorized"
                    "Authorization header with Bearer token required")).
Definition forbidden_reply : Flow :=
  Done (Send 403 (json_error "Forbidden" "Invalid authorization token")).

Definition with_authorization (h : option string) (req : Request) : Request :=
  {| method := method req; path := path req; authorization := h;
     query_sessionId := query_sessionId req; body := body req |}.

(** The routes registered on the application. *)
Inductive Endpoint : Type :=
  | SseEndpoint | MessagesEndpoint | ToolsInfoEndpoint | HealthEndpoint | RootEndpoint.

Definition is_get (m : Method) : bool :=
  match m with GET | HEAD => true | _ => false end.
Definition is_post (m : Method) : bool :=
  match m with POST => true | _ => false end.

(** [targets req e]: the request's method and path select route [e]. *)
Definition targets (req : Request) (e : Endpoint) : bool :=
  match e with
  | SseEndpoint => is_get (method req) && Express.route_matches "/sse" (path req)
  | MessagesEndpoint => is_post (method req) && Express.route_matches "/messages" (path req)
  | ToolsInfoEndpoint => is_get (method req) && Express.route_matches "/tools-info" (path req)
  | HealthEndpoint => is_get (method req) && Express.route_matches "/health" (path req)
  | RootEndpoint => is_get (method req) && Express.route_matches "/" (path req)
  end.

Definition handler_of (cfg : Config) (e : Endpoint) : Express.Layer :=
  match e with
  | SseEndpoint => sse_layer cfg
  | MessagesEndpoint => messages_layer
  | ToolsInfoEndpoint => toolsInfo_layer cfg
  | HealthEndpoint => health_layer cfg
  | RootEndpoint => root_layer
  end.

Definition guarded (e : Endpoint) : bool :=
  match e with
  | SseEndpoint | MessagesEndpoint => true
  | _ => false
  end.

Definition parsed (req : Request) : bool :=
  match body req with BadJson _ => false | _ => true end.

(** Every route handler answers or throws; none calls [next()]. *)
Definition answers (h : Express.Layer) : Prop :=
  ∀ req w st, snd (h req w st) ≠ Return Next.

Definition open_get (p : string) : Request :=
  {| method := GET; path := p; authorization := None;
     query_sessionId := None; body := NoBody |}.

(** The validation in the words of the specification: a non-empty string
    [name] and an object-typed [parameters] field. *)
Definition spec_valid_entry (e : val) : bool :=
  match e with
  | Obj props =>
      match assoc "name" props with
      | Str s => negb (String.eqb s "")
      | _ => false
      end
      && match assoc "parameters" props with
         | Obj _ | Arr _ => true
         | _ => false
         end
  | _ => false
  end.

(** The canonical descriptor. *)
Definition descriptor (name : string) (description properties required : val) : val :=
  Obj [ ("name", Str name);
        ("description", description);
        ("parameters", Obj [("properties", properties); ("required", required)]) ].

Definition is_descriptor (e : val) : Prop :=
  ∃ name d p r, e = descriptor name d p r.

Definition fallback_or (l : list val) : list val :=
  match l with
  | [] => getHardcodedTools
  | _ :: _ => if forallb spec_valid_entry l then l else getHardcodedTools
  end.

Definition keyword_tool : val :=
  Obj [ ("description", Str "Keyword ideas");
        ("parameters",
         Obj [("shape", Obj [("keyword", Obj [("type", Str "string")])]);
              ("required", Arr [Str "keyword"])]);
        ("callback", Fun) ].

Definition world_tools (tools : val) : World :=
  {| now := "2025-01-01T00:00:00.000Z"; uptime := Num 12;
     mintedSessionId := "A"; server_registeredTools := tools;
     setTimeout_error := range_error |}.

Definition type_error : error :=
  mkError "TypeError" "transport.handlePostMessage is not a function".

(** *** Vocabulary of the further properties *)

(** The same configuration with other authentication settings. *)
Definition set_auth (enabled : bool) (token : option string) (cfg : Config) : Config :=
  {| AUTH_ENABLED := enabled; env_API_TOKEN := token;
     NODE_ENV := NODE_ENV cfg; SERVER_NAME := SERVER_NAME cfg;
     SERVER_VERSION := SERVER_VERSION cfg;
     MAX_CONNECTIONS := MAX_CONNECTIONS cfg;
     CONNECTION_TIMEOUT := CONNECTION_TIMEOUT cfg |}.


(** The statuses the application's own handlers send with an error body. *)
Definition error_statuses : list Z := [400; 401; 403; 404; 500; 503].

(** The tool is one through which no property can be read. *)
Definition nullish (v : val) : bool :=
  match v with Undefined | Null => true | _ => false end.

(** The own property [k] of a plain value, [undefined] when there is
    none. *)
Definition prop (v : val) (k : string) : val :=
  match v with
  | Obj props => assoc k props
  | _ => Undefined
  end.

(** Where the fields of a descriptor come from: the tool's [shape], else
    its [properties], else the empty object; the tool's [required] when
    that is an array, else the empty array; the tool's [description]
    unless it is falsy, else the empty string. *)
Definition source_properties (tool : val) : val :=
  let parameters := prop tool "parameters" in
  if truthy parameters then
    if truthy (prop parameters "shape") then prop parameters "shape"
    else if truthy (prop parameters "properties") then prop parameters "properties"
    else Obj []
  else Obj [].

Definition source_required (tool : val) : val :=
  let parameters := prop tool "parameters" in
  if truthy parameters
     && (truthy (prop parameters "required") && isArray (prop parameters "required"))
  then prop parameters "required"
  else Arr [].

Definition source_description (tool : val) : val :=
  if truthy (prop tool "description") then prop tool "description" else Str "".

(** A tool table whose first tool is [null]. *)
Definition broken_table : val :=
  Obj [("broken", Null); ("keywords", keyword_tool)].

(** Leading decimal digits of a string, most significant first. *)
Fixpoint leading_digits (s : string) : list Z :=
  match s with
  | String c rest =>
      let n := Z.of_nat (nat_of_ascii c) in
      if (48 <=? n) && (n <=? 57) then (n - 48) :: leading_digits rest else []
  | EmptyString => []
  end.

(** [parseInt] on the strings of the examples: strings that start with
    neither a blank, a sign nor [0x], and carry fewer than sixteen
    digits.  No digit at the front gives [NaN]. *)
Definition parseInt_decimal (s : string) : option Z :=
  match leading_digits s with
  | [] => None
  | ds => Some (fold_left (fun acc d => 10 * acc + d) ds 0)
  end.

(** An environment that sets nothing, and one with a mistyped switch, an
    unreadable limit and a production mode. *)
Definition empty_env : gmap string string := ∅.
Definition odd_env : gmap string string :=
  <["AUTH_ENABLED" := "TRUE"]>
    (<["API_TOKEN" := "your-secure-token-here"]>
       (<["MCP_MAX_CONNECTIONS" := "unlimited"]>
          (<["NODE_ENV" := "production"]> ∅))).

(** A configuration that refuses every stream, and one with no limit. *)
Definition closed_cfg : Config := {|
  AUTH_ENABLED := false;
  env_API_TOKEN := None;
  NODE_ENV := "production";
  SERVER_NAME := "Haloscan SEO Tools";
  SERVER_VERSION := "1.0.0";
  MAX_CONNECTIONS := Some 0;
  CONNECTION_TIMEOUT := Some 3600
|}.

Definition session_B : Transport := mkTransport "/messages" "B".

(** Requests of the examples. *)
Definition preflight (p : string) : Request :=
  {| method := OPTIONS; path := p; authorization := None;
     query_sessionId := None; body := NoBody |}.


Definition bare (m : Method) (p : string) : Request :=
  {| method := m; path := p; authorization := None;
     query_sessionId := None; body := NoBody |}.

(** * Properties *)

(** ** Registry consistency *)

Section Registry.

Variable cfg : Config.

Lemma consistent_init : consistent cfg init.
Proof.
  split; simpl.
  - by rewrite map_size_empty.
  - intros k t H. by rewrite lookup_empty in H.
  - lia.
  - lia.
Qed.

Lemma num_ge_false a m : num_ge a (Some m) = false → a < m.
Proof. simpl. intros H. apply Z.leb_gt in H. lia. Qed.

Lemma dict_get_absent {V} (o : gmap string V) k :
  dict_get o k = Absent → o !! k = None.
Proof.
  unfold dict_get. destruct (o !! k); [discriminate|]. by destruct (inherited k).
Qed.

Lemma sse_rejects w st :
  num_ge (activeConnections st) (MAX_CONNECTIONS cfg) = true →
  sse cfg w st =
    (st, Return (Done (Send 503 (json_error "Service Unavailable"
                                   "Maximum number of connections reached")))).
Proof. intros H. unfold sse. by rewrite H. Qed.

Lemma sse_throws w st :
  num_ge (activeConnections st) (MAX_CONNECTIONS cfg) = false →
  timeout_in_range (CONNECTION_TIMEOUT cfg) = false →
  sse cfg w st = (st, Throw (setTimeout_error w)).
Proof. intros H Ht. unfold sse. by rewrite H, Ht. Qed.

Lemma sse_accepts w st :
  num_ge (activeConnections st) (MAX_CONNECTIONS cfg) = false →
  timeout_in_range (CONNECTION_TIMEOUT cfg) = true →
  sse cfg w st =
    (mkState (<[mintedSessionId w := mkTransport "/messages" (mintedSessionId w)]>
                (transports st))
             (activeConnections st + 1),
     Return (Done (EventStream (mkTransport "/messages" (mintedSessionId w))))).
Proof. intros H Ht. unfold sse. by rewrite H, Ht. Qed.

Lemma consistent_connect st sid :
  consistent cfg st → feasible cfg st (Connect sid) = true →
  consistent cfg (step cfg st (Connect sid)).
Proof.
  intros [Hc Hk Hl Ho] Hf. simpl in *.
  destruct (num_ge (activeConnections st) (MAX_CONNECTIONS cfg)) eqn:Hge.
  - rewrite sse_rejects by done. by split.
  - destruct (timeout_in_range (CONNECTION_TIMEOUT cfg)) eqn:Hto.
    + rewrite sse_accepts by done. simpl in *.
      assert (transports st !! sid = None) as Hfresh.
      { apply dict_get_absent. by destruct (dict_get (transports st) sid). }
      split; simpl.
      * rewrite map_size_insert_None by done. lia.
      * intros k t. rewrite lookup_insert. case_decide; [|by apply Hk].
        intros [= <-]. done.
      * intros m Hm _. rewrite Hm in Hge. apply num_ge_false in Hge. lia.
      * done.
    + rewrite sse_throws by done. split; try done.
      intros Hp. by specialize (Ho Hp).
Qed.

Lemma consistent_close st sid :
  consistent cfg st → feasible cfg st (Close sid) = true →
  consistent cfg (step cfg st (Close sid)).
Proof.
  intros [Hc Hk Hl Ho] Hf. simpl in *.
  apply bool_decide_eq_true in Hf as [t Ht]. rewrite Ht. simpl.
  pose proof (Hk _ _ Ht) as Hid. rewrite Hid.
  pose proof (map_size_delete_Some sid (transports st) (mk_is_Some _ _ Ht)) as Hsz.
  assert (size (transports st) ≠ 0%nat) as Hne.
  { intros H0. apply map_size_empty_inv in H0. rewrite H0 in Ht.
    by rewrite lookup_empty in Ht. }
  split; simpl.
  - lia.
  - intros k t'. rewrite lookup_delete. case_decide; [done|]. apply Hk.
  - intros m Hm Hpos. specialize (Hl m Hm). lia.
  - intros Hpos. apply Ho. lia.
Qed.

Lemma messages_keeps_state req st : fst (messages req st) = st.
Proof.
  unfold messages. destruct (query_sessionId req) as [[|c s]|]; [done| |done].
  by destruct (dict_get (transports st) (String c s)).
Qed.

Lemma consistent_step st e :
  consistent cfg st → feasible cfg st e = true → consistent cfg (step cfg st e).
Proof.
  destruct e as [sid|sid|req].
  - apply consistent_connect.
  - apply consistent_close.
  - intros H _. simpl. by rewrite messages_keeps_state.
Qed.

Lemma consistent_states es : ∀ st,
  consistent cfg st → feasible_trace cfg st es = true →
  Forall (consistent cfg) (states cfg st es).
Proof.
  induction es as [|e es IH]; intros st Hst Hf; simpl in *.
  - by constructor.
  - apply andb_prop in Hf as [He Hes]. constructor; [done|].
    apply IH; [by apply consistent_step | done].
Qed.

Lemma consistent_fold es : ∀ st,
  consistent cfg st → feasible_trace cfg st es = true →
  consistent cfg (fold_left (step cfg) es st).
Proof.
  induction es as [|e es IH]; intros st Hst Hf; simpl in *; [done|].
  apply andb_prop in Hf as [He Hes].
  apply IH; [by apply consistent_step | done].
Qed.

Lemma feasible_trace_app es2 : ∀ es1 st,
  feasible_trace cfg st (es1 ++ es2) = true →
  feasible_trace cfg st es1 = true ∧
  feasible_trace cfg (fold_left (step cfg) es1 st) es2 = true.
Proof.
  induction es1 as [|e es1 IH]; intros st H; simpl in *; [done|].
  apply andb_prop in H as [He H]. apply IH in H as [H1 H2].
  by rewrite He, H1.
Qed.

End Registry.

(** ** The streaming endpoint *)




(** ** Counter and mapping *)

(** C2. In every execution of the server -- connections accepted under
    the ids the SDK mints, streams closing once each -- the counter
    equals the number of entries of [transports] in the initial state and
    after every operation. *)
Theorem registry_count_is_size (cfg : Config) (es : list Event) :
  feasible_trace cfg init es = true →
  Forall (λ st, activeConnections st = Z.of_nat (size (transports st)))
         (states cfg init es).
Proof.
  intros Hf.
  eapply Forall_impl; [apply consistent_states; [apply consistent_init | done]|].
  intros st Hst. apply Hst.
Qed.

Lemma registry_count_is_size_witness :
  Forall (λ st, activeConnections st = Z.of_nat (size (transports st)))
         (states two_cfg init
            [Connect "A"; Connect "B"; Connect "C"; Close "A"; Connect "D"; Close "B"]).
Proof. apply (registry_count_is_size two_cfg). reflexivity. Defined.

(** ** The close listener *)

(** C3 (counterexample).  Running the listener's body for an id that is
    not in [transports] still subtracts one: from the initial state the
    counter becomes -1, and running it twice for a session registered once
    does the same. *)
Lemma on_close_absent_decrements :
  transports init !! sessionId ghost = None
  ∧ fst (on_close ghost init) ≠ init
  ∧ activeConnections (fst (on_close ghost init)) = -1
  ∧ transports (run_trace two_cfg [Connect "A"]) !! "A" = Some session_A
  ∧ activeConnections
      (fst (on_close session_A
              (fst (on_close session_A (run_trace two_cfg [Connect "A"]))))) = -1.
Proof.
  split; [reflexivity|]. split; [|split; [reflexivity|split; reflexivity]].
  intros H. apply (f_equal activeConnections) in H. discriminate H.
Qed.

(** C3 (amended). The listener's body never throws, and on [transports]
    it is idempotent: deleting an absent id changes nothing, so a second
    run leaves the mapping as the first did.  The counter is not guarded:
    every run subtracts exactly one.  It stays non-negative when the id
    is registered in a state whose counter equals the mapping's size. *)
Theorem on_close_effect (t : Transport) (st : State) :
  snd (on_close t st) = Return tt
  ∧ transports (fst (on_close t (fst (on_close t st))))
      = transports (fst (on_close t st))
  ∧ (transports st !! sessionId t = None →
       transports (fst (on_close t st)) = transports st)
  ∧ activeConnections (fst (on_close t st)) = activeConnections st - 1
  ∧ (is_Some (transports st !! sessionId t) →
       activeConnections st = Z.of_nat (size (transports st)) →
       0 ≤ activeConnections (fst (on_close t st))).
Proof.
  unfold on_close. simpl. repeat split.
  - apply delete_id. apply lookup_delete_eq.
  - intros H. by apply delete_id.
  - intros [t' Ht] Hc.
    assert (size (transports st) ≠ 0%nat).
    { intros H0. apply map_size_empty_inv in H0. rewrite H0 in Ht.
      by rewrite lookup_empty in Ht. }
    lia.
Qed.

Lemma on_close_effect_witness :
  transports (fst (on_close ghost init)) = transports init
  ∧ 0 ≤ activeConnections
          (fst (on_close session_A (run_trace two_cfg [Connect "A"; Connect "B"]))).
Proof.
  split.
  - destruct (on_close_effect ghost init) as (_ & _ & Habsent & _).
    apply Habsent. reflexivity.
  - destruct (on_close_effect session_A (run_trace two_cfg [Connect "A"; Connect "B"]))
      as (_ & _ & _ & _ & Hpos).
    apply Hpos.
    + exists session_A. reflexivity.
    + reflexivity.
Defined.

(** ** The command endpoint *)

(** What the handler does, case by case: without an id (or with the empty
    string) 400; with a registered id the request goes to the transport
    stored under it; with an id that names a member of
    [Object.prototype] the call on the looked-up value throws; with any
    other id 404. *)
Lemma messages_dispatch (req : Request) (st : State) :
  match query_sessionId req with
  | None | Some "" => messages req st = (st, Return bad_request_reply)
  | Some sid =>
      match transports st !! sid with
      | Some t => messages req st = (st, Return (Done (HandlePostMessage t req)))
      | None =>
          if inherited sid
          then messages req st =
                 (st, Throw (mkError "TypeError"
                               "transport.handlePostMessage is not a function"))
          else messages req st = (st, Return not_found_reply)
      end
  end.
Proof.
  unfold messages, dict_get.
  destruct (query_sessionId req) as [[|c s]|]; [done| |done].
  destruct (transports st !! String c s); [done|].
  by destruct (inherited (String c s)).
Qed.

(** In a consistent registry a command carrying a registered, non-empty
    id reaches the transport that owns this id. *)
Lemma messages_forwards_to_owner cfg req st sid t :
  consistent cfg st → query_sessionId req = Some sid → sid ≠ "" →
  transports st !! sid = Some t →
  messages req st = (st, Return (Done (HandlePostMessage t req)))
  ∧ sessionId t = sid.
Proof.
  intros Hst Hq Hne Ht. pose proof (messages_dispatch req st) as H.
  rewrite Hq in H. destruct sid as [|c s]; [done|]. rewrite Ht in H.
  split; [done|]. by eapply keyed_by_id.
Qed.

(** Once a session's listener has run, a command carrying its id finds
    nothing, provided the id is not a member of [Object.prototype]. *)
Lemma messages_after_close req st t :
  query_sessionId req = Some (sessionId t) → sessionId t ≠ "" →
  inherited (sessionId t) = false →
  messages req (fst (on_close t st)) = (fst (on_close t st), Return not_found_reply).
Proof.
  intros Hq Hne Hin. pose proof (messages_dispatch req (fst (on_close t st))) as H.
  rewrite Hq in H. destruct (sessionId t) as [|c s] eqn:Es; [done|].
  simpl in H. rewrite Es, lookup_delete_eq, Hin in H. simpl. by rewrite Es.
Qed.

(** C4 (failing input).  With nothing registered, a command for the id
    [constructor] is neither answered 404 nor forwarded: the handler
    throws, and the stack answers through the error handler with 500,
    with authentication disabled as well as with the configured token. *)
Theorem messages_prototype_key_not_404 :
  transports init !! "constructor" = None
  ∧ messages (command (Some "constructor")) init = (init, Throw type_error)
  ∧ snd (messages (command (Some "constructor")) init) ≠ Return not_found_reply
  ∧ outcome (app production_cfg (command (Some "constructor")) (world_with "") init)
      = Send 500 (json_error "Internal Server Error" "An unexpected error occurred")
  ∧ outcome (app sample_cfg
               (with_authorization (Some "Bearer your-secure-token-here")
                  (command (Some "constructor")))
               (world_with "") init)
      = Send 500 (json_error "Internal Server Error"
                    "transport.handlePostMessage is not a function").
Proof.
  split; [reflexivity|]. split; [reflexivity|]. split; [discriminate|].
  split; reflexivity.
Qed.

(** C7. The command handler returns the registry it was given, whatever
    it answers; and no POST request changes the registry on its way
    through the whole stack. *)
Theorem messages_no_mutation (cfg : Config) (req : Request) (w : World) (st : State) :
  fst (messages req st) = st
  ∧ (method req = POST → state_after (app cfg req w st) = st).
Proof.
  split; [apply messages_keeps_state|].
  intros Hm. unfold app, stack, run.
  unfold guard_layer, sse_layer, messages_layer, toolsInfo_layer, health_layer,
    root_layer.
  unfold Express.request_logger, Express.cors, Express.options_any,
    Express.json, Express.use, Express.get, Express.post, Express.pass.
  rewrite Hm.
  destruct (body req); simpl;
    repeat match goal with
    | |- context [if ?b then _ else _] => destruct b; simpl
    | |- context [authorizeRequest ?c ?r] => destruct (authorizeRequest c r); simpl
    | |- context [messages ?r ?s] =>
        pose proof (messages_keeps_state r s);
        destruct (messages r s) as [? [[|?]|?]]; simpl in *
    end; done.
Qed.

Lemma messages_no_mutation_witness :
  state_after (app sample_cfg (command (Some "B")) (world_with "")
                 (run_trace sample_cfg [Connect "A"; Connect "B"]))
  = run_trace sample_cfg [Connect "A"; Connect "B"].
Proof.
  apply (messages_no_mutation sample_cfg (command (Some "B")) (world_with "")
           (run_trace sample_cfg [Connect "A"; Connect "B"])).
  reflexivity.
Defined.

(** ** The Access Guard *)

Lemma route_matches_cases p path :
  p ≠ "/" → Express.route_matches p path = true →
  Express.lower path = p ∨ Express.lower path = p ++ "/".
Proof.
  intros Hp. unfold Express.route_matches.
  destruct (String.eqb_spec p "/") as [|_]; [done|].
  intros H. apply orb_prop in H as [H|H]; apply String.eqb_eq in H; auto.
Qed.

Lemma root_matches_cases path :
  Express.route_matches "/" path = true → path = "/" ∨ path = "".
Proof.
  unfold Express.route_matches. simpl.
  intros H. apply orb_prop in H as [H|H]; apply String.eqb_eq in H; auto.
Qed.

Lemma handler_answers cfg e : answers (handler_of cfg e).
Proof.
  intros req w st. destruct e; simpl.
  - unfold sse_layer, sse. simpl.
    destruct (num_ge _ _); [done|]. by destruct (timeout_in_range _).
  - unfold messages_layer.
    pose proof (messages_dispatch req st) as H.
    destruct (query_sessionId req) as [[|c s]|]; try (by rewrite H).
    destruct (transports st !! String c s); [by rewrite H|].
    destruct (inherited (String c s)); by rewrite H.
  - unfold toolsInfo_layer, toolsInfo. simpl.
    destruct (debugDump _); [|done]. simpl.
    by destruct (resolveTools _).
  - done.
  - done.
Qed.

Ltac eval_match_to Hr b :=
  match goal with
  | |- context [Express.mount_matches ?p ?q] =>
      let H := fresh in
      assert (Express.mount_matches p q = b) as H
        by (unfold Express.mount_matches; rewrite ?Hr; vm_compute; reflexivity);
      rewrite H; clear H
  | |- context [Express.route_matches ?p ?q] =>
      let H := fresh in
      assert (Express.route_matches p q = b) as H
        by (unfold Express.route_matches; rewrite ?Hr; vm_compute; reflexivity);
      rewrite H; clear H
  end.

Ltac eval_match Hr := repeat (eval_match_to Hr true || eval_match_to Hr false).

(** A request that selects a route is answered by the guard followed by
    that route's handler when the route is guarded, and by the handler
    alone otherwise. *)
Lemma app_routes (cfg : Config) (req : Request) (w : World) (st : State) (e : Endpoint) :
  parsed req = true → targets req e = true →
  app cfg req w st =
    run cfg (if guarded e then [guard_layer cfg; handler_of cfg e]
             else [handler_of cfg e]) req w st.
Proof.
  intros Hb Ht. unfold app, stack, parsed in *.
  pose proof (handler_answers cfg e) as Hans.
  destruct e; simpl in Ht; apply andb_prop in Ht as [Hm Hr];
    [ apply route_matches_cases in Hr as [Hr|Hr]; [| |done]
    | apply route_matches_cases in Hr as [Hr|Hr]; [| |done]
    | apply route_matches_cases in Hr as [Hr|Hr]; [| |done]
    | apply route_matches_cases in Hr as [Hr|Hr]; [| |done]
    | apply root_matches_cases in Hr as [Hr|Hr] ];
    cbn [guarded handler_of] in *;
    match goal with
    | H : answers ?h |- _ => revert H; generalize h; intros hh Hans
    end;
    destruct (method req) eqn:Em; try discriminate Hm;
    destruct (body req) eqn:Eb; try discriminate Hb;
    cbn [run];
    unfold Express.request_logger, Express.cors, Express.options_any,
      Express.json, Express.use, Express.get, Express.post, Express.pass;
    rewrite ?Em, ?Eb; cbn [existsb];
    eval_match Hr; cbn [orb];
    unfold guard_layer; try (destruct (authorizeRequest cfg req));
    specialize (Hans req w st);
    destruct (hh req w st) as [? [[|?]|?]]; simpl in *; done.
Qed.

Lemma guard_disabled cfg req :
  AUTH_ENABLED cfg = false → authorizeRequest cfg req = Next.
Proof. intros H. unfold authorizeRequest. by rewrite H. Qed.

Lemma guard_no_credential cfg req :
  AUTH_ENABLED cfg = true → authorization req = None →
  authorizeRequest cfg req = unauthorized_reply.
Proof. intros H Hn. unfold authorizeRequest. by rewrite H, Hn. Qed.

Lemma guard_not_bearer cfg req h :
  AUTH_ENABLED cfg = true → authorization req = Some h →
  startsWith h "Bearer " = false →
  authorizeRequest cfg req = unauthorized_reply.
Proof.
  intros H Hh Hp. unfold authorizeRequest. rewrite H, Hh, Hp. simpl.
  by rewrite orb_true_r.
Qed.

Lemma startsWith_empty s : startsWith s "" = true.
Proof. by destruct s. Qed.

Lemma guard_bearer cfg req tok :
  AUTH_ENABLED cfg = true → authorization req = Some ("Bearer " ++ tok) →
  authorizeRequest cfg req =
    if bool_decide (Some tok = env_API_TOKEN cfg) then Next else forbidden_reply.
Proof.
  intros H Hh. unfold authorizeRequest. rewrite H, Hh.
  cbv beta iota fix delta [String.append]. simpl.
  rewrite startsWith_empty. simpl.
  by destruct (bool_decide (Some tok = env_API_TOKEN cfg)).
Qed.

(** C5. With authentication disabled the guard lets every request
    through.  With it enabled, a request without an Authorization header
    is answered 401, a bearer token other than the configured one 403,
    and the configured token passes.  Of the application's routes, the
    guard stands in front of [/sse] and [/messages] -- the stack answers
    such a request with the guard's refusal, or else with the handler --
    and of no other: [/tools-info], [/health] and [/] are answered by
    their handlers alone. *)
Theorem access_guard_gating (cfg : Config) :
  (AUTH_ENABLED cfg = false → ∀ req, authorizeRequest cfg req = Next)
  ∧ (AUTH_ENABLED cfg = true →
       (∀ req, authorization req = None →
          authorizeRequest cfg req = unauthorized_reply)
     ∧ (∀ req tok, authorization req = Some ("Bearer " ++ tok) →
          env_API_TOKEN cfg ≠ Some tok →
          authorizeRequest cfg req = forbidden_reply)
     ∧ (∀ req tok, authorization req = Some ("Bearer " ++ tok) →
          env_API_TOKEN cfg = Some tok →
          authorizeRequest cfg req = Next))
  ∧ (∀ req w st e, parsed req = true → targets req e = true →
       if guarded e
       then match authorizeRequest cfg req with
            | Done refusal =>
                app cfg req w st =
                  {| state_after := st; outcome := refusal; console_error := [] |}
            | Next => app cfg req w st = run cfg [handler_of cfg e] req w st
            end
       else app cfg req w st = run cfg [handler_of cfg e] req w st)
  ∧ (∀ e, guarded e = true ↔ e = SseEndpoint ∨ e = MessagesEndpoint).
Proof.
  split; [|split; [|split]].
  - intros H req. by apply guard_disabled.
  - intros H. split; [|split].
    + intros req Hn. by apply guard_no_credential.
    + intros req tok Hh Hne. rewrite (guard_bearer cfg req tok) by done.
      rewrite bool_decide_eq_false_2; [done|]. intros E. by apply Hne.
    + intros req tok Hh He. rewrite (guard_bearer cfg req tok) by done.
      by rewrite bool_decide_eq_true_2.
  - intros req w st e Hb Ht.
    rewrite (app_routes cfg req w st e Hb Ht).
    destruct (guarded e); [|done].
    cbn [run]. unfold guard_layer.
    by destruct (authorizeRequest cfg req).
  - intros e. destruct e; simpl; split; intros H; try done; auto;
      destruct H; discriminate.
Qed.

Lemma access_guard_gating_witness :
  authorizeRequest production_cfg (open_get "/sse") = Next
  ∧ authorizeRequest sample_cfg (open_get "/sse") = unauthorized_reply
  ∧ authorizeRequest sample_cfg
      (with_authorization (Some ("Bearer " ++ "guess")) (command (Some "A")))
    = forbidden_reply
  ∧ authorizeRequest sample_cfg
      (with_authorization (Some ("Bearer " ++ "your-secure-token-here"))
         (command (Some "A")))
    = Next
  ∧ outcome (app sample_cfg (open_get "/sse") (world_with "A") init)
    = Send 401 (json_error "Unauthorized"
                  "Authorization header with Bearer token required")
  ∧ app sample_cfg (open_get "/health") (world_with "A") init
    = run sample_cfg [handler_of sample_cfg HealthEndpoint]
        (open_get "/health") (world_with "A") init.
Proof.
  destruct (access_guard_gating production_cfg) as (Hoff & _).
  destruct (access_guard_gating sample_cfg) as (_ & Hon & Hscope & _).
  destruct (Hon eq_refl) as (Hnone & Hbad & Hgood).
  split; [apply Hoff; reflexivity|].
  split; [apply Hnone; reflexivity|].
  split; [apply (Hbad _ "guess"); [reflexivity | discriminate]|].
  split; [apply (Hgood _ "your-secure-token-here"); reflexivity|].
  split.
  - pose proof (Hscope (open_get "/sse") (world_with "A") init SseEndpoint
                  eq_refl eq_refl) as H.
    simpl in H. rewrite H. reflexivity.
  - exact (Hscope (open_get "/health") (world_with "A") init HealthEndpoint
             eq_refl eq_refl).
Defined.

(** C9. With authentication enabled, a header that does not begin with
    [Bearer ] is answered exactly as a missing header is: 401. *)
Theorem non_bearer_is_unauthorized (cfg : Config) (req : Request) (h : string) :
  AUTH_ENABLED cfg = true →
  authorization req = Some h →
  startsWith h "Bearer " = false →
  authorizeRequest cfg req = unauthorized_reply
  ∧ authorizeRequest cfg req = authorizeRequest cfg (with_authorization None req).
Proof.
  intros H Hh Hp.
  rewrite (guard_not_bearer cfg req h) by done.
  split; [done|]. symmetry. by apply guard_no_credential.
Qed.

Lemma non_bearer_is_unauthorized_witness :
  authorizeRequest sample_cfg
    (with_authorization (Some "Basic dXNlcjpwYXNz") (open_get "/sse"))
  = unauthorized_reply.
Proof.
  apply (non_bearer_is_unauthorized sample_cfg
           (with_authorization (Some "Basic dXNlcjpwYXNz") (open_get "/sse"))
           "Basic dXNlcjpwYXNz"); reflexivity.
Defined.

(** ** The tool catalog *)

Lemma normalizeTool_descriptor entry e :
  normalizeTool entry = Return e →
  ∃ d p r, e = descriptor (fst entry) d p r.
Proof.
  unfold normalizeTool, descriptor, bind. intros H.
  repeat match type of H with
  | context [match ?x with _ => _ end] => destruct x; try discriminate H
  end; injection H as <-; eauto.
Qed.

Lemma validTool_descriptor name d p r :
  validTool (descriptor name d p r) = Return (negb (String.eqb name "")).
Proof.
  unfold validTool, descriptor. simpl.
  by rewrite !andb_true_r.
Qed.

Lemma spec_valid_descriptor name d p r :
  spec_valid_entry (descriptor name d p r) = negb (String.eqb name "").
Proof. unfold spec_valid_entry, descriptor. simpl. by rewrite andb_true_r. Qed.

Lemma map_throwing_Forall {A B} (f : A → completion B) (P : B → Prop) l : ∀ bs,
  (∀ a b, f a = Return b → P b) →
  map_throwing f l = Return bs → Forall P bs.
Proof.
  induction l as [|a l IH]; intros bs Hf H; simpl in H.
  - injection H as <-. constructor.
  - unfold bind in H. destruct (f a) as [b|] eqn:Ea; [|discriminate].
    destruct (map_throwing f l) as [bs'|] eqn:El; [|discriminate].
    injection H as <-. constructor; [by eapply Hf | by apply IH].
Qed.

Lemma extractTools_descriptors tools l :
  extractTools tools = Return l → Forall is_descriptor l.
Proof.
  unfold extractTools. intros H.
  destruct (truthy tools); [|injection H as <-; constructor].
  destruct (String.eqb _ _); [|injection H as <-; constructor].
  unfold bind in H. destruct (entries tools) as [es|]; [|discriminate].
  eapply map_throwing_Forall; [|exact H].
  intros entry e He. apply normalizeTool_descriptor in He as (d & p & r & ->).
  by exists (fst entry), d, p, r.
Qed.

Lemma every_descriptors l :
  Forall is_descriptor l →
  every validTool l = Return (forallb spec_valid_entry l).
Proof.
  induction 1 as [|e l (name & d & p & r & ->) _ IH]; [done|].
  cbn [every forallb]. rewrite validTool_descriptor, spec_valid_descriptor.
  unfold bind. destruct (negb (String.eqb name "")); [exact IH | done].
Qed.

Lemma keys_truthy v : truthy v = true → ∃ ks, keys v = Return ks.
Proof. destruct v; try discriminate; intros _; unfold keys; simpl; eauto. Qed.

Lemma debugDump_first firstTool :
  firstTool ≠ Undefined → firstTool ≠ Null →
  (let* _ := keys firstTool in
   let* _ := get firstTool "callback" in
   let* parameters := get firstTool "parameters" in
   if truthy parameters then let* _ := keys parameters in Return tt
   else Return tt) = Return tt.
Proof.
  intros Hu Hn.
  assert (∀ parameters,
    (if truthy parameters then let* _ := keys parameters in Return tt
     else Return tt) = Return tt) as Hp.
  { intros parameters. destruct (truthy parameters) eqn:E; [|done].
    apply keys_truthy in E as [ks ->]. done. }
  destruct firstTool; try done; unfold keys; simpl; apply Hp.
Qed.

(** The diagnostic block completes whenever the extraction does. *)
Lemma debugDump_returns tools l :
  extractTools tools = Return l → debugDump tools = Return tt.
Proof.
  unfold extractTools, debugDump. intros H.
  destruct (truthy tools); [|done].
  destruct (String.eqb _ _); [|done].
  unfold bind at 1. unfold bind in H at 1.
  destruct (entries tools) as [[|[k v] es]|]; [done| |done].
  simpl in H. unfold bind in H at 1.
  destruct (normalizeTool (k, v)) eqn:En; [|discriminate]. clear H.
  apply debugDump_first; intros ->; discriminate En.
Qed.

Lemma resolveTools_returns tools :
  resolveTools tools =
    Return (match extractTools tools with
            | Throw _ => getHardcodedTools
            | Return l => fallback_or l
            end).
Proof.
  unfold resolveTools, try_catch.
  destruct (extractTools tools) as [l|err] eqn:E; [|done].
  destruct l as [|e l]; [done|].
  change (length (e :: l) =? 0)%nat with false. cbv iota.
  rewrite every_descriptors by (by eapply extractTools_descriptors).
  unfold bind, fallback_or.
  by destruct (forallb spec_valid_entry (e :: l)).
Qed.

(** The resolver of lines 170-234 always produces a catalog.  It is the
    hardcoded one when the extraction throws, yields no entry, or yields
    an entry without a non-empty string name and object-typed parameters,
    and the extracted list otherwise.  The introspection handler answers
    200 with exactly this catalog in its [tools] field whenever its
    diagnostic block completes, which it does whenever the extraction
    does. *)
Lemma catalog_fallback (cfg : Config) (w : World) (st : State) :
  ∃ catalog,
    resolveTools (server_registeredTools w) = Return catalog
    ∧ catalog = match extractTools (server_registeredTools w) with
                | Throw _ => getHardcodedTools
                | Return [] => getHardcodedTools
                | Return l =>
                    if forallb spec_valid_entry l then l else getHardcodedTools
                end
    ∧ (debugDump (server_registeredTools w) = Return tt →
         ∃ payload,
           toolsInfo cfg w st = (st, Return (Done (Send 200 payload)))
           ∧ get payload "tools" = Return (Arr catalog))
    ∧ (∀ l, extractTools (server_registeredTools w) = Return l →
         debugDump (server_registeredTools w) = Return tt).
Proof.
  eexists. split; [apply resolveTools_returns|].
  split; [|split].
  - destruct (extractTools (server_registeredTools w)) as [[|e l]|]; reflexivity.
  - intros Hd. unfold toolsInfo. rewrite Hd, resolveTools_returns. simpl.
    eexists. split; reflexivity.
  - intros l. apply debugDump_returns.
Qed.

Lemma catalog_fallback_examples :
  (∃ payload,
     toolsInfo sample_cfg (world_tools (Obj [("keywords", keyword_tool)])) init
       = (init, Return (Done (Send 200 payload)))
     ∧ get payload "tools"
       = Return (Arr [descriptor "keywords" (Str "Keyword ideas")
                        (Obj [("keyword", Obj [("type", Str "string")])])
                        (Arr [Str "keyword"])]))
  ∧ (∃ payload,
     toolsInfo sample_cfg (world_tools (Obj [("keywords", keyword_tool); ("broken", Null)])) init
       = (init, Return (Done (Send 200 payload)))
     ∧ get payload "tools" = Return (Arr getHardcodedTools))
  ∧ debugDump (Obj [("", keyword_tool)]) = Return tt.
Proof.
  split; [|split].
  - destruct (catalog_fallback sample_cfg
                (world_tools (Obj [("keywords", keyword_tool)])) init)
      as (catalog & _ & -> & Hresp & _).
    apply Hresp. reflexivity.
  - destruct (catalog_fallback sample_cfg
                (world_tools (Obj [("keywords", keyword_tool); ("broken", Null)])) init)
      as (catalog & _ & -> & Hresp & _).
    apply Hresp. reflexivity.
  - destruct (catalog_fallback sample_cfg
                (world_tools (Obj [("", keyword_tool)])) init)
      as (_ & _ & _ & _ & Hdump).
    eapply Hdump. reflexivity.
Defined.

(** C6 (failing input).  With a tool table whose first tool is [null] the
    extraction throws, and the resolver of lines 170-234 would answer with
    the hardcoded catalog; but the handler's diagnostic block reads through
    that tool first, outside the [try], and throws: the request is
    answered 500 by the error handler, with no [tools] field at all. *)
Theorem tools_info_null_first_tool_is_500 :
  extractTools broken_table
    = Throw (mkError "TypeError" "Cannot read properties of null (reading 'parameters')")
  ∧ resolveTools broken_table = Return getHardcodedTools
  ∧ toolsInfo sample_cfg (world_tools broken_table) init
    = (init, Throw (mkError "TypeError" "Cannot convert undefined or null to object"))
  ∧ outcome (app sample_cfg (bare GET "/tools-info") (world_tools broken_table) init)
    = Send 500 (json_error "Internal Server Error"
                  "Cannot convert undefined or null to object")
  ∧ get (json_error "Internal Server Error"
           "Cannot convert undefined or null to object") "tools"
    = Return Undefined.
Proof. repeat split. Qed.

Lemma every_false_iff l :
  Forall is_descriptor l →
  every validTool l = Return false ↔
  ∃ e, e ∈ l ∧ get e "name" = Return (Str "").
Proof.
  intros Hl. rewrite every_descriptors by done.
  induction Hl as [|e l (name & d & p & r & ->) _ IH].
  - simpl. split; [discriminate|]. intros (e & He & _). by apply elem_of_nil in He.
  - cbn [forallb]. rewrite spec_valid_descriptor.
    destruct (String.eqb_spec name "") as [->|Hne]; simpl.
    + split; [|done]. intros _. eexists. split; [apply list_elem_of_here|done].
    + rewrite IH. split.
      * intros (e & He & Hn). exists e. split; [by apply list_elem_of_further|done].
      * intros (e & He & Hn). apply elem_of_cons in He as [->|He]; [|eauto].
        simpl in Hn. congruence.
Qed.

(** C10. A normalized entry carries [parameters] of the form
    [{properties, required}] and its own key as [name]; the
    object-typed-parameters test holds of it, and it passes validation
    exactly when its name is not the empty string.  So an extracted list
    fails validation only through an entry with an empty name. *)
Theorem normalized_parameters_valid :
  (∀ entry e, normalizeTool entry = Return e →
     (∃ p r, get e "parameters" = Return (Obj [("properties", p); ("required", r)]))
     ∧ (∀ parameters, get e "parameters" = Return parameters →
          truthy parameters && String.eqb (typeof parameters) "object" = true)
     ∧ get e "name" = Return (Str (fst entry))
     ∧ validTool e = Return (negb (String.eqb (fst entry) "")))
  ∧ (∀ tools l, extractTools tools = Return l →
       every validTool l = Return false ↔
       ∃ e, e ∈ l ∧ get e "name" = Return (Str "")).
Proof.
  split.
  - intros entry e He.
    apply normalizeTool_descriptor in He as (d & p & r & ->).
    split; [by eexists _, _|].
    split; [by intros ? [= <-]|].
    split; [done|]. apply validTool_descriptor.
  - intros tools l Hl. apply every_false_iff. by eapply extractTools_descriptors.
Qed.

Lemma normalized_parameters_valid_witness :
  validTool (descriptor "keywords" (Str "Keyword ideas")
               (Obj [("keyword", Obj [("type", Str "string")])])
               (Arr [Str "keyword"]))
    = Return true
  ∧ every validTool [descriptor "" (Str "") (Obj []) (Arr [])] = Return false.
Proof.
  destruct normalized_parameters_valid as (Hentry & Hlist).
  split.
  - destruct (Hentry ("keywords", keyword_tool)
                (descriptor "keywords" (Str "Keyword ideas")
                   (Obj [("keyword", Obj [("type", Str "string")])])
                   (Arr [Str "keyword"])) eq_refl) as (_ & _ & _ & Hv).
    exact Hv.
  - apply (Hlist (Obj [("", Obj [])]) [descriptor "" (Str "") (Obj []) (Arr [])] eq_refl).
    eexists. split; [apply list_elem_of_here | reflexivity].
Defined.

(** ** The global error handler *)

(** C8. An error thrown by any layer of the stack is answered by the
    error handler and by nothing else: one console entry carrying the
    timestamp and the error, and a 500 reply whose message is the
    error's own in development and a fixed text otherwise.  The stack
    itself returns a reply for every request. *)
Theorem error_handler_reply (cfg : Config) (w : World) (err : error) :
  log_text (fst (errorHandler cfg w err)) = "[" ++ now w ++ "] Server error:"
  ∧ log_error (fst (errorHandler cfg w err)) = Some err
  ∧ (NODE_ENV cfg = "development" →
       snd (errorHandler cfg w err)
         = Send 500 (json_error "Internal Server Error" (err_message err)))
  ∧ (NODE_ENV cfg ≠ "development" →
       snd (errorHandler cfg w err)
         = Send 500 (json_error "Internal Server Error" "An unexpected error occurred"))
  ∧ (∀ layer rest req st st',
       layer req w st = (st', Throw err) →
       run cfg (layer :: rest) req w st =
         {| state_after := st';
            outcome := snd (errorHandler cfg w err);
            console_error := [fst (errorHandler cfg w err)] |}).
Proof.
  unfold errorHandler. simpl. repeat split.
  - intros ->. done.
  - intros Hne. destruct (String.eqb_spec (NODE_ENV cfg) "development"); done.
  - intros layer rest req st st' ->. done.
Qed.

Lemma error_handler_reply_witness :
  snd (errorHandler sample_cfg (world_tools Undefined) type_error)
    = Send 500 (json_error "Internal Server Error"
                  "transport.handlePostMessage is not a function")
  ∧ snd (errorHandler production_cfg (world_tools Undefined) type_error)
    = Send 500 (json_error "Internal Server Error" "An unexpected error occurred")
  ∧ run production_cfg [messages_layer] (command (Some "toString"))
      (world_tools Undefined) init
    = {| state_after := init;
         outcome := snd (errorHandler production_cfg (world_tools Undefined) type_error);
         console_error := [fst (errorHandler production_cfg (world_tools Undefined) type_error)] |}.
Proof.
  split; [|split].
  - destruct (error_handler_reply sample_cfg (world_tools Undefined) type_error)
      as (_ & _ & Hdev & _).
    apply Hdev. reflexivity.
  - destruct (error_handler_reply production_cfg (world_tools Undefined) type_error)
      as (_ & _ & _ & Hprod & _).
    apply Hprod. discriminate.
  - destruct (error_handler_reply production_cfg (world_tools Undefined) type_error)
      as (_ & _ & _ & _ & Hthrow).
    apply Hthrow. reflexivity.
Defined.

(** * Further properties of the registry *)

Section RegistryMore.

Variable cfg : Config.

(** X1.  The number of open sessions is never negative and never above the
    limit, in any state of any execution. *)
Theorem open_sessions_bounded (es : list Event) :
  feasible_trace cfg init es = true →
  Forall (λ st, 0 ≤ activeConnections st
                ∧ ∀ m, MAX_CONNECTIONS cfg = Some m →
                       activeConnections st ≤ Z.max 0 m)
         (states cfg init es).
Proof.
  intros Hf.
  eapply Forall_impl; [apply consistent_states; [apply consistent_init | done]|].
  intros st [Hc _ Hl]. split; [lia|].
  intros m Hm. specialize (Hl m Hm). lia.
Qed.

Lemma step_keeps_lookup st e sid t :
  consistent cfg st → feasible cfg st e = true →
  transports st !! sid = Some t → e ≠ Close sid →
  transports (step cfg st e) !! sid = Some t.
Proof.
  intros Hst Hf Ht Hne. destruct e as [sid'|sid'|req]; simpl in *.
  - destruct (num_ge (activeConnections st) (MAX_CONNECTIONS cfg)) eqn:Hge.
    + by rewrite sse_rejects.
    + destruct (timeout_in_range (CONNECTION_TIMEOUT cfg)) eqn:Hto;
        [|by rewrite sse_throws].
      rewrite sse_accepts by done. simpl in *.
      assert (sid' ≠ sid) as Hd.
      { intros ->. unfold dict_get in Hf. by rewrite Ht in Hf. }
      by rewrite lookup_insert_ne.
  - apply bool_decide_eq_true in Hf as [t' Ht']. rewrite Ht'. simpl.
    rewrite (keyed_by_id cfg st Hst _ _ Ht').
    rewrite lookup_delete_ne by (intros ->; by apply Hne). done.
  - by rewrite messages_keeps_state.
Qed.

Lemma trace_keeps_lookup es : ∀ st sid t,
  consistent cfg st → feasible_trace cfg st es = true →
  transports st !! sid = Some t → Close sid ∉ es →
  transports (fold_left (step cfg) es st) !! sid = Some t.
Proof.
  induction es as [|e es IH]; intros st sid t Hst Hf Ht Hn; simpl in *; [done|].
  apply andb_prop in Hf as [He Hes].
  apply not_elem_of_cons in Hn as [Hne Hn].
  apply IH; try done.
  - by apply consistent_step.
  - apply step_keeps_lookup; first [done | by intros ->].
Qed.

(** X2.  A session that was accepted and has not closed since is reachable:
    whatever else connects, closes or posts in between, a command carrying
    its id is handed to the transport built for it. *)
Theorem open_session_receives (es es' : list Event) (sid : string) (req : Request) :
  feasible_trace cfg init (es ++ Connect sid :: es') = true →
  num_ge (activeConnections (run_trace cfg es)) (MAX_CONNECTIONS cfg) = false →
  timeout_in_range (CONNECTION_TIMEOUT cfg) = true →
  Close sid ∉ es' →
  sid ≠ "" →
  query_sessionId req = Some sid →
  snd (messages req (run_trace cfg (es ++ Connect sid :: es')))
    = Return (Done (HandlePostMessage (mkTransport "/messages" sid) req)).
Proof.
  intros Hf Hge Hto Hn Hne Hq.
  apply feasible_trace_app in Hf as [Hes Hrest].
  unfold run_trace in *. rewrite fold_left_app. simpl.
  set (st := fold_left (step cfg) es init) in *.
  assert (consistent cfg st) as Hst
    by (apply consistent_fold; [apply consistent_init | done]).
  simpl in Hrest. apply andb_prop in Hrest as [Hc Hes'].
  pose proof (consistent_connect cfg st sid Hst Hc) as Hst'.
  simpl in Hes', Hst'.
  assert (transports (fst (sse cfg (world_with sid) st)) !! sid
          = Some (mkTransport "/messages" sid)) as Hin.
  { rewrite sse_accepts by done. simpl. apply lookup_insert_eq. }
  pose proof (trace_keeps_lookup es' _ sid _ Hst' Hes' Hin Hn) as Hl.
  pose proof (messages_dispatch req (fold_left (step cfg) es'
                (fst (sse cfg (world_with sid) st)))) as Hd.
  rewrite Hq in Hd. destruct sid as [|c s]; [done|].
  rewrite Hl in Hd. by rewrite Hd.
Qed.

(** X3.  Sessions do not interfere: in any execution, the arrival or the
    departure of one session leaves the answer to a command for any other
    id as it was. *)
Theorem sessions_isolated (es : list Event) (sid other : string) (req : Request) :
  feasible_trace cfg init es = true →
  sid ≠ other →
  query_sessionId req = Some other →
  snd (messages req (step cfg (run_trace cfg es) (Connect sid)))
    = snd (messages req (run_trace cfg es))
  ∧ snd (messages req (step cfg (run_trace cfg es) (Close sid)))
    = snd (messages req (run_trace cfg es)).
Proof.
  intros Hf Hne Hq.
  assert (consistent cfg (run_trace cfg es)) as Hst
    by (apply consistent_fold; [apply consistent_init | done]).
  set (st := run_trace cfg es) in *.
  assert (∀ st', transports st' !! other = transports st !! other →
                 snd (messages req st') = snd (messages req st)) as Hsame.
  { intros st' Hl. unfold messages, dict_get. rewrite Hq.
    destruct other as [|c s]; [done|]. rewrite Hl.
    destruct (transports st !! String c s); [done|].
    by destruct (inherited (String c s)). }
  split; apply Hsame; simpl.
  - unfold sse. destruct (num_ge _ _); [done|].
    destruct (timeout_in_range _); [|done]. simpl. by rewrite lookup_insert_ne.
  - destruct (transports st !! sid) as [t|] eqn:Ht; [|done]. simpl.
    rewrite (keyed_by_id cfg st Hst _ _ Ht). by rewrite lookup_delete_ne.
Qed.

(** X4.  Opening a stream and then closing it restores the registry exactly. *)
Theorem connect_close_restores (w : World) (st : State) :
  num_ge (activeConnections st) (MAX_CONNECTIONS cfg) = false →
  timeout_in_range (CONNECTION_TIMEOUT cfg) = true →
  transports st !! mintedSessionId w = None →
  fst (on_close (mkTransport "/messages" (mintedSessionId w)) (fst (sse cfg w st)))
    = st.
Proof.
  intros Hge Hto Hfresh. rewrite sse_accepts by done. unfold on_close. simpl.
  rewrite delete_insert_id by done. destruct st as [m n]. simpl. f_equal. lia.
Qed.

(** X5.  When the SDK hands out an id that is already registered, the new
    transport replaces the old one under that key: the mapping does not
    grow while the counter does, and the two no longer agree. *)
Theorem duplicate_id_diverges (w : World) (st : State) (old : Transport) :
  num_ge (activeConnections st) (MAX_CONNECTIONS cfg) = false →
  timeout_in_range (CONNECTION_TIMEOUT cfg) = true →
  transports st !! mintedSessionId w = Some old →
  activeConnections st = Z.of_nat (size (transports st)) →
  transports (fst (sse cfg w st)) !! mintedSessionId w
    = Some (mkTransport "/messages" (mintedSessionId w))
  ∧ size (transports (fst (sse cfg w st))) = size (transports st)
  ∧ activeConnections (fst (sse cfg w st))
    = Z.of_nat (size (transports (fst (sse cfg w st)))) + 1.
Proof.
  intros Hge Hto Hold Hc. rewrite sse_accepts by done. simpl.
  rewrite lookup_insert_eq, map_size_insert_Some by done.
  repeat split. lia.
Qed.

(** X6.  With a limit of zero or less no stream is ever accepted: the registry
    stays empty through every execution. *)
Theorem non_positive_limit_refuses_all (m : Z) (es : list Event) :
  MAX_CONNECTIONS cfg = Some m → m ≤ 0 →
  Forall (λ st, st = init ∧ ∀ w, sse cfg w st = (st, Return capacity_reply))
         (states cfg init es).
Proof.
  intros Hm Hle.
  assert (∀ w, sse cfg w init = (init, Return capacity_reply)) as Hrej.
  { intros w. apply sse_rejects. rewrite Hm. simpl. apply Z.leb_le. lia. }
  assert (∀ e, step cfg init e = init) as Hstep.
  { intros [sid|sid|req]; simpl.
    - by rewrite Hrej.
    - by rewrite lookup_empty.
    - apply messages_keeps_state. }
  induction es as [|e es IH]; simpl.
  - by constructor.
  - constructor; [done|]. by rewrite Hstep.
Qed.

End RegistryMore.

(** Close listeners of two sessions may run in either order. *)
Theorem closes_commute (t1 t2 : Transport) (st : State) :
  fst (on_close t1 (fst (on_close t2 st))) = fst (on_close t2 (fst (on_close t1 st))).
Proof.
  unfold on_close. simpl. f_equal. apply delete_delete.
Qed.

(** * Further properties of the middleware stack *)



Ltac unfold_stack :=
  unfold app, stack, run;
  unfold guard_layer, sse_layer, messages_layer, toolsInfo_layer, health_layer,
    root_layer;
  unfold Express.request_logger, Express.cors, Express.options_any,
    Express.json, Express.use, Express.get, Express.post, Express.pass.

(** X7.  The registry changes on one path only: a GET or HEAD of [/sse] that
    the guard lets through while the counter is below the limit and the
    timeout is one the socket accepts.  Every
    other request -- refused, rejected, failed or served -- leaves it as
    it was. *)
Theorem only_accepted_streams_change_registry
    (cfg : Config) (req : Request) (w : World) (st : State) :
  state_after (app cfg req w st) = st
  ∨ (is_get (method req) = true
     ∧ Express.route_matches "/sse" (path req) = true
     ∧ parsed req = true
     ∧ authorizeRequest cfg req = Next
     ∧ num_ge (activeConnections st) (MAX_CONNECTIONS cfg) = false
     ∧ timeout_in_range (CONNECTION_TIMEOUT cfg) = true
     ∧ state_after (app cfg req w st) = fst (sse cfg w st)).
Proof.
  destruct (is_get (method req) && Express.route_matches "/sse" (path req)
            && parsed req) eqn:Hsse.
  - apply andb_prop in Hsse as [Hsse Hp]. apply andb_prop in Hsse as [Hm Hr].
    pose proof (app_routes cfg req w st SseEndpoint Hp) as Happ.
    simpl in Happ. rewrite Hm, Hr in Happ. specialize (Happ eq_refl).
    rewrite Happ. cbn [run]. unfold guard_layer, sse_layer.
    destruct (authorizeRequest cfg req) eqn:Hg; [|by left].
    destruct (num_ge (activeConnections st) (MAX_CONNECTIONS cfg)) eqn:Hge.
    + left. by rewrite sse_rejects.
    + destruct (timeout_in_range (CONNECTION_TIMEOUT cfg)) eqn:Hto.
      * right. rewrite sse_accepts by done. simpl. done.
      * left. by rewrite sse_throws.
  - left. unfold parsed in Hsse. unfold_stack.
    destruct (method req) eqn:Em; destruct (body req) eqn:Eb; simpl in *;
      try done;
      repeat match goal with
      | |- context [Express.route_matches "/sse" ?p] =>
          rewrite andb_true_r in Hsse; rewrite Hsse
      | |- context [if ?b then _ else _] => destruct b; simpl
      | |- context [authorizeRequest ?c ?r] => destruct (authorizeRequest c r); simpl
      | |- context [messages ?r ?s] =>
          pose proof (messages_keeps_state r s);
          destruct (messages r s) as [? [[|?]|?]]; simpl in *
      | |- context [debugDump ?t] => destruct (debugDump t); simpl
      | |- context [resolveTools ?t] => destruct (resolveTools t); simpl
      end; done.
Qed.

(** X8.  Every OPTIONS request is answered by the CORS layer as a preflight:
    it is never authenticated, never reaches a route, and the handler of
    [app.options("*")] behind it never runs. *)
Theorem options_answered_by_cors (cfg : Config) (req : Request) (w : World) (st : State) :
  method req = OPTIONS →
  app cfg req w st = {| state_after := st; outcome := Preflight; console_error := [] |}.
Proof. intros Hm. unfold_stack. by rewrite Hm. Qed.



(** X11.  Whatever the request, a reply sent by the application itself carries
    status 200, or one of six error statuses together with a body of the
    form [{error, message}]. *)
Theorem error_replies_are_structured
    (cfg : Config) (req : Request) (w : World) (st : State) (status : Z) (payload : val) :
  outcome (app cfg req w st) = Send status payload →
  status = 200
  ∨ (In status error_statuses ∧ ∃ e m, payload = json_error e m).
Proof.
  unfold_stack.
  unfold authorizeRequest, sse, messages, toolsInfo, health, root, errorHandler,
    dict_get, bind.
  destruct (method req); destruct (body req); simpl;
    repeat match goal with
    | |- context [if ?b then _ else _] => destruct b; simpl
    | |- context [match ?x with _ => _ end] =>
        match x with
        | authorization _ => destruct x; simpl
        | query_sessionId _ => destruct x as [[|? ?]|]; simpl
        | lookup _ _ => destruct x; simpl
        | debugDump _ => destruct x; simpl
        | resolveTools _ => destruct x; simpl
        end
    end;
    intros H; try discriminate H; injection H as <- <-;
    first [ by left | right; split; [simpl; tauto | by eexists _, _] ].
Qed.

(** X12.  In every execution, the health and the introspection endpoints report
    the number of sessions that are open: the [activeConnections] they
    send is the number of entries of [transports]. *)
Theorem stats_report_open_sessions (cfg : Config) (es : list Event) (w : World) :
  feasible_trace cfg init es = true →
  ∃ payload,
    health cfg w (run_trace cfg es) = (run_trace cfg es, Done (Send 200 payload))
    ∧ get payload "activeConnections"
      = Return (Num (Z.of_nat (size (transports (run_trace cfg es)))))
    ∧ (debugDump (server_registeredTools w) = Return tt →
       ∃ info stats,
         toolsInfo cfg w (run_trace cfg es)
           = (run_trace cfg es, Return (Done (Send 200 info)))
         ∧ get info "stats" = Return stats
         ∧ get stats "activeConnections"
           = Return (Num (Z.of_nat (size (transports (run_trace cfg es)))))
         ∧ get stats "maxConnections" = Return (num_val (MAX_CONNECTIONS cfg))).
Proof.
  intros Hf.
  assert (consistent cfg (run_trace cfg es)) as [Hc _ _]
    by (apply consistent_fold; [apply consistent_init | done]).
  eexists. split; [reflexivity|]. simpl. split; [by rewrite Hc|].
  intros Hd. unfold toolsInfo. rewrite Hd, resolveTools_returns. simpl.
  eexists _, _. split; [reflexivity|]. simpl. split; [reflexivity|].
  simpl. by rewrite Hc.
Qed.

(** * Further properties of the Access Guard *)

Lemma startsWith_split p : ∀ s,
  startsWith s p = true → s = (p ++ substring (String.length p) s)%string.
Proof.
  unfold startsWith. induction p as [|a p IH]; intros s H.
  - done.
  - destruct s as [|b s]; [discriminate H|]. simpl in H.
    destruct (ascii_dec a b) as [->|]; [|discriminate H].
    cbn [String.length substring]. cbv beta iota fix delta [String.append].
    f_equal. by apply IH.
Qed.

(** X13.  The guard lets a request through in two cases only: authentication is
    disabled, or the header is [Bearer ] followed by exactly the
    configured token.  In particular, with authentication enabled and no
    token configured, nothing passes. *)
Theorem guard_passes_iff (cfg : Config) (req : Request) :
  (authorizeRequest cfg req = Next ↔
     AUTH_ENABLED cfg = false
     ∨ ∃ tok, authorization req = Some ("Bearer " ++ tok)%string
              ∧ env_API_TOKEN cfg = Some tok)
  ∧ (AUTH_ENABLED cfg = true → env_API_TOKEN cfg = None →
     authorizeRequest cfg req ≠ Next).
Proof.
  assert (authorizeRequest cfg req = Next ↔
     AUTH_ENABLED cfg = false
     ∨ ∃ tok, authorization req = Some ("Bearer " ++ tok)%string
              ∧ env_API_TOKEN cfg = Some tok) as Hiff.
  { split.
    - unfold authorizeRequest.
      destruct (AUTH_ENABLED cfg); [|by left]. cbn [negb].
      destruct (authorization req) as [h|]; [|done].
      destruct (truthy (Str h)); [|done]. cbn [negb orb].
      destruct (startsWith h "Bearer ") eqn:Hp; [|done]. cbn [negb].
      destruct (bool_decide (Some (substring 7 h) = env_API_TOKEN cfg)) eqn:Ht;
        [|done]. cbn [negb].
      intros _. right. exists (substring 7 h). split.
      + f_equal. by apply (startsWith_split "Bearer ").
      + symmetry. by apply bool_decide_eq_true in Ht.
    - intros [Hoff|(tok & Hh & Ht)].
      + by apply guard_disabled.
      + destruct (AUTH_ENABLED cfg) eqn:Ha; [|by apply guard_disabled].
        rewrite (guard_bearer cfg req tok) by done.
        by rewrite bool_decide_eq_true_2. }
  split; [exact Hiff|].
  intros Ha Hn Hpass. apply Hiff in Hpass as [Hoff|(tok & _ & Ht)]; congruence.
Qed.

(** * Further properties of the tool catalog *)

Lemma get_truthy v k : truthy v = true → ∃ x, get v k = Return x.
Proof. destruct v; try discriminate; intros _; simpl; eauto. Qed.

Lemma get_not_nullish v k : nullish v = false → ∃ x, get v k = Return x.
Proof. destruct v; try discriminate; intros _; simpl; eauto. Qed.

Lemma normalizeTool_returns_iff entry :
  (∃ e, normalizeTool entry = Return e) ↔ nullish (snd entry) = false.
Proof.
  destruct entry as [name v]. simpl. split.
  - intros [e He]. destruct v; try done; discriminate He.
  - intros Hv. unfold normalizeTool. simpl.
    destruct (get_not_nullish v "parameters" Hv) as [ps ->].
    destruct (get_not_nullish v "description" Hv) as [d ->].
    unfold bind. destruct (truthy ps) eqn:Hps; [|eauto].
    destruct (get_truthy ps "shape" Hps) as [sh ->].
    destruct (get_truthy ps "properties" Hps) as [pr ->].
    destruct (get_truthy ps "required" Hps) as [rq ->].
    destruct (truthy sh), (truthy pr), (truthy rq && isArray rq); eauto.
Qed.

Lemma get_prop v k : nullish v = false → get v k = Return (prop v k).
Proof. by destruct v. Qed.

Lemma truthy_not_nullish v : truthy v = true → nullish v = false.
Proof. by destruct v. Qed.

(** X14.  A normalized descriptor is determined by the tool and complete:
    it carries the tool's key as name; its [properties] is the tool's
    [shape], else its [properties], else the empty object, and is always
    truthy; its [required] is the tool's own when that is an array, else
    the empty array; its [description] is the tool's own or the empty
    string, never [undefined]. *)
Theorem normalized_descriptor_complete (entry : string * val) (e : val) :
  normalizeTool entry = Return e →
  e = descriptor (fst entry)
        (source_description (snd entry))
        (source_properties (snd entry))
        (source_required (snd entry))
  ∧ truthy (source_properties (snd entry)) = true
  ∧ isArray (source_required (snd entry)) = true
  ∧ (truthy (source_description (snd entry)) = true
     ∨ source_description (snd entry) = Str "").
Proof.
  intros H.
  assert (nullish (snd entry) = false) as Hn
    by (apply normalizeTool_returns_iff; eauto).
  split.
  - unfold normalizeTool in H.
    rewrite !(get_prop (snd entry)) in H by done.
    unfold source_description, source_properties, source_required, or_else.
    cbn [bind] in H.
    destruct (truthy (prop (snd entry) "parameters")) eqn:Hps.
    + apply truthy_not_nullish in Hps.
      rewrite !(get_prop (prop (snd entry) "parameters")) in H by done.
      cbn [bind andb] in H.
      destruct (truthy (prop (prop (snd entry) "parameters") "shape"));
        destruct (truthy (prop (prop (snd entry) "parameters") "properties"));
        destruct (truthy (prop (prop (snd entry) "parameters") "required")
                  && isArray (prop (prop (snd entry) "parameters") "required"));
        cbn [bind] in H; by injection H as <-.
    + cbn [bind andb] in H. by injection H as <-.
  - unfold source_description, source_properties, source_required.
    repeat split.
    + destruct (truthy (prop (snd entry) "parameters")); [|done].
      destruct (truthy (prop (prop (snd entry) "parameters") "shape")) eqn:E1; [done|].
      by destruct (truthy (prop (prop (snd entry) "parameters") "properties")) eqn:E2.
    + destruct (truthy (prop (snd entry) "parameters")); [|done]. cbn [andb].
      destruct (truthy (prop (prop (snd entry) "parameters") "required")
                && isArray (prop (prop (snd entry) "parameters") "required")) eqn:E;
        [|done].
      by apply andb_prop in E as [_ ?].
    + destruct (truthy (prop (snd entry) "description")) eqn:E; auto.
Qed.

Lemma map_throwing_Forall2 {A B} (f : A → completion B) (R : A → B → Prop) l : ∀ bs,
  (∀ a b, f a = Return b → R a b) →
  map_throwing f l = Return bs → Forall2 R l bs.
Proof.
  induction l as [|a l IH]; intros bs Hf H; simpl in H.
  - injection H as <-. constructor.
  - unfold bind in H. destruct (f a) as [b|] eqn:Ea; [|discriminate].
    destruct (map_throwing f l) as [bs'|] eqn:El; [|discriminate].
    injection H as <-. constructor; [by apply Hf | by apply IH].
Qed.

(** X15.  The extraction yields one descriptor per registered tool, in the
    table's order, each under the key the tool is registered with. *)
Theorem extraction_keeps_names_and_order (props : list (string * val)) (l : list val) :
  extractTools (Obj props) = Return l →
  Forall2 (λ kv e, get e "name" = Return (Str (fst kv))) props l
  ∧ length l = length props.
Proof.
  unfold extractTools. simpl. intros H.
  assert (Forall2 (λ kv e, get e "name" = Return (Str (fst kv))) props l) as HF.
  { eapply map_throwing_Forall2; [|exact H].
    intros kv e He. by apply normalizeTool_descriptor in He as (d & p & r & ->). }
  split; [done|]. symmetry. by eapply Forall2_length.
Qed.

Lemma map_throwing_returns_iff {A B} (f : A → completion B) l :
  (∃ bs, map_throwing f l = Return bs) ↔ Forall (λ a, ∃ b, f a = Return b) l.
Proof.
  induction l as [|a l IH]; simpl.
  - split; [constructor | eauto].
  - unfold bind. split.
    + intros [bs H]. destruct (f a) as [b|] eqn:Ea; [|discriminate].
      destruct (map_throwing f l) as [bs'|]; [|discriminate].
      constructor; [eauto | apply IH; eauto].
    + intros H. apply Forall_cons in H as [[b ->] Hl].
      apply IH in Hl as [bs ->]. eauto.
Qed.

(** X16.  The extraction fails exactly when the table holds a tool that is
    [null] or [undefined]; a table of anything else -- objects of any
    shape, numbers, strings -- is extracted. *)
Theorem extraction_throws_iff (props : list (string * val)) :
  (∃ err, extractTools (Obj props) = Throw err)
  ↔ existsb (λ kv, nullish (snd kv)) props = true.
Proof.
  unfold extractTools. simpl.
  pose proof (map_throwing_returns_iff normalizeTool props) as Hr.
  destruct (existsb (λ kv, nullish (snd kv)) props) eqn:Hex.
  - split; [done|]. intros _.
    destruct (map_throwing normalizeTool props) as [bs|err] eqn:E; [|eauto].
    exfalso. destruct Hr as [Hr _]. specialize (Hr (ex_intro _ bs eq_refl)).
    apply existsb_exists in Hex as (kv & Hin & Hn).
    rewrite Forall_forall in Hr. apply list_elem_of_In in Hin.
    specialize (Hr kv Hin). apply normalizeTool_returns_iff in Hr. congruence.
  - split; [|done]. intros [err He]. exfalso.
    destruct Hr as [_ Hr]. destruct Hr as [bs Hbs]; [|congruence].
    apply Forall_forall. intros kv Hin. apply normalizeTool_returns_iff.
    destruct (nullish (snd kv)) eqn:Hn; [|done].
    assert (existsb (λ kv, nullish (snd kv)) props = true); [|congruence].
    apply existsb_exists. exists kv. split; [by apply list_elem_of_In | done].
Qed.

(** X17.  The resolver never hands out an empty or malformed catalog: whatever
    the runtime's table is, its result has at least one entry, every
    entry is a complete descriptor with a non-empty name, and the whole
    list passes the handler's own validation. *)
Theorem catalog_never_empty_or_malformed (tools : val) :
  ∃ catalog,
    resolveTools tools = Return catalog
    ∧ catalog ≠ []
    ∧ every validTool catalog = Return true
    ∧ Forall (λ e, ∃ name d p r, e = descriptor name d p r ∧ name ≠ "") catalog.
Proof.
  eexists. split; [apply resolveTools_returns|].
  assert (getHardcodedTools ≠ []
          ∧ every validTool getHardcodedTools = Return true
          ∧ Forall (λ e, ∃ name d p r, e = descriptor name d p r ∧ name ≠ "")
                   getHardcodedTools) as Hhard.
  { split; [done|]. split; [reflexivity|].
    repeat constructor; eexists _, _, _, _; (split; [reflexivity | discriminate]). }
  destruct (extractTools tools) as [l|err] eqn:E; [|exact Hhard].
  destruct l as [|e l]; [exact Hhard|]. cbn [fallback_or].
  destruct (forallb spec_valid_entry (e :: l)) eqn:Hv; [|exact Hhard].
  pose proof (extractTools_descriptors _ _ E) as Hd.
  split; [done|]. split; [rewrite every_descriptors by done; by rewrite Hv|].
  rewrite forallb_forall in Hv. apply Forall_forall. intros x Hx.
  rewrite Forall_forall in Hd. destruct (Hd x Hx) as (name & d & p & r & ->).
  exists name, d, p, r. split; [done|].
  apply list_elem_of_In in Hx. specialize (Hv _ Hx).
  rewrite spec_valid_descriptor in Hv. intros ->. discriminate Hv.
Qed.

(** X18.  The introspection handler fails exactly when the first tool of the
    table is [null] or [undefined]: its diagnostic block reads through
    that tool before the guarded extraction starts.  The request is then
    answered 500 by the error handler instead of with the hardcoded
    catalog.  With any other first tool the block completes. *)
Theorem introspection_fails_on_nullish_first_tool
    (cfg : Config) (w : World) (st : State) (k : string) (v : val)
    (rest : list (string * val)) :
  server_registeredTools w = Obj ((k, v) :: rest) →
  (nullish v = true →
     ∃ err, toolsInfo cfg w st = (st, Throw err)
            ∧ ∀ req, parsed req = true → targets req ToolsInfoEndpoint = true →
                outcome (app cfg req w st)
                = Send 500 (json_error "Internal Server Error"
                              (if String.eqb (NODE_ENV cfg) "development"
                               then err_message err
                               else "An unexpected error occurred")))
  ∧ (nullish v = false → debugDump (server_registeredTools w) = Return tt).
Proof.
  intros Ht. split.
  - intros Hn.
    assert (∃ err, toolsInfo cfg w st = (st, Throw err)) as [err Herr].
    { unfold toolsInfo. rewrite Ht. destruct v; try discriminate Hn; simpl; eauto. }
    exists err. split; [done|]. intros req Hp Hr.
    rewrite (app_routes cfg req w st ToolsInfoEndpoint Hp Hr).
    cbn [guarded handler_of run]. unfold toolsInfo_layer. by rewrite Herr.
  - intros Hn. rewrite Ht. unfold debugDump. simpl.
    destruct v; try discriminate Hn; apply debugDump_first; done.
Qed.

(** * Properties of the start-up configuration *)

Section StartupProperties.

Variable parseInt : string → option Z.

(** X19.  Authentication is switched on by the exact value [true] only: with
    the variable unset or set to anything else -- [TRUE], [1], [yes] --
    the guard lets every request through, credentials or not. *)
Theorem auth_needs_exact_true (env : gmap string string) (req : Request) :
  env !! "AUTH_ENABLED" ≠ Some "true" →
  authorizeRequest (load_config parseInt env) req = Next.
Proof.
  intros H. apply guard_disabled. simpl. by apply bool_decide_eq_false_2.
Qed.

(** X20.  The error handler discloses the error's message unless [NODE_ENV] is
    set to something other than [development]: an unset or empty
    variable counts as development. *)
Theorem errors_disclosed_by_default (env : gmap string string) (w : World) (err : error) :
  (env !! "NODE_ENV" = None ∨ env !! "NODE_ENV" = Some ""
   ∨ env !! "NODE_ENV" = Some "development" →
     snd (errorHandler (load_config parseInt env) w err)
     = Send 500 (json_error "Internal Server Error" (err_message err)))
  ∧ (∀ mode, env !! "NODE_ENV" = Some mode → mode ≠ "" → mode ≠ "development" →
     snd (errorHandler (load_config parseInt env) w err)
     = Send 500 (json_error "Internal Server Error" "An unexpected error occurred")).
Proof.
  unfold errorHandler, load_config, env_or. simpl. split.
  - intros [->|[->| ->]]; reflexivity.
  - intros mode -> Hne Hdev. simpl.
    destruct (String.eqb_spec mode "") as [|_]; [done|]. simpl.
    by destruct (String.eqb_spec mode "development").
Qed.


End StartupProperties.

(** * The further properties on examples *)

Lemma open_sessions_bounded_witness :
  Forall (λ st, 0 ≤ activeConnections st
                ∧ ∀ m, MAX_CONNECTIONS two_cfg = Some m →
                       activeConnections st ≤ Z.max 0 m)
         (states two_cfg init
            [Connect "A"; Connect "B"; Connect "C"; Close "B"; Connect "D"]).
Proof. apply (open_sessions_bounded two_cfg). reflexivity. Defined.

Lemma open_session_receives_witness :
  snd (messages (command (Some "B"))
         (run_trace two_cfg
            ([Connect "A"] ++ Connect "B" :: [Close "A"; Connect "C"; Command (command None)])))
  = Return (Done (HandlePostMessage session_B (command (Some "B")))).
Proof.
  apply (open_session_receives two_cfg [Connect "A"] _ "B" (command (Some "B"))).
  - reflexivity.
  - reflexivity.
  - reflexivity.
  - intros H. repeat (apply elem_of_cons in H as [H|H]; [discriminate H|]).
    by apply elem_of_nil in H.
  - discriminate.
  - reflexivity.
Defined.

Lemma sessions_isolated_witness :
  snd (messages (command (Some "A"))
         (step two_cfg (run_trace two_cfg [Connect "A"; Connect "B"]) (Close "B")))
  = snd (messages (command (Some "A")) (run_trace two_cfg [Connect "A"; Connect "B"])).
Proof.
  apply (sessions_isolated two_cfg [Connect "A"; Connect "B"] "B" "A" (command (Some "A"))).
  - reflexivity.
  - discriminate.
  - reflexivity.
Defined.

Lemma connect_close_restores_witness :
  fst (on_close session_B
         (fst (sse two_cfg (world_with "B") (run_trace two_cfg [Connect "A"]))))
  = run_trace two_cfg [Connect "A"].
Proof.
  apply (connect_close_restores two_cfg (world_with "B") (run_trace two_cfg [Connect "A"]));
    reflexivity.
Defined.

Lemma duplicate_id_diverges_witness :
  size (transports (fst (sse two_cfg (world_with "A") (run_trace two_cfg [Connect "A"]))))
  = size (transports (run_trace two_cfg [Connect "A"]))
  ∧ activeConnections (fst (sse two_cfg (world_with "A") (run_trace two_cfg [Connect "A"])))
    = Z.of_nat (size (transports
                        (fst (sse two_cfg (world_with "A")
                                (run_trace two_cfg [Connect "A"]))))) + 1.
Proof.
  destruct (duplicate_id_diverges two_cfg (world_with "A")
              (run_trace two_cfg [Connect "A"]) session_A)
    as (_ & Hsize & Hcount); [reflexivity..|].
  split; assumption.
Defined.

Lemma non_positive_limit_refuses_all_witness :
  Forall (λ st, st = init ∧ ∀ w, sse closed_cfg w st = (st, Return capacity_reply))
         (states closed_cfg init [Connect "A"; Command (command (Some "A")); Connect "B"]).
Proof.
  apply (non_positive_limit_refuses_all closed_cfg 0); [reflexivity | lia].
Defined.

Lemma options_answered_by_cors_witness :
  app sample_cfg (preflight "/sse") (world_with "A") init
  = {| state_after := init; outcome := Preflight; console_error := [] |}.
Proof. apply (options_answered_by_cors sample_cfg (preflight "/sse")). reflexivity. Defined.



Lemma error_replies_are_structured_witness :
  In 404 error_statuses
  ∧ ∃ e m, json_error "Not Found" "No active session found for the provided sessionId"
           = json_error e m.
Proof.
  destruct (error_replies_are_structured production_cfg (command (Some "gone"))
              (world_with "A") init 404
              (json_error "Not Found" "No active session found for the provided sessionId"))
    as [H|H]; [reflexivity | discriminate H | exact H].
Defined.

Lemma stats_report_open_sessions_witness :
  ∃ payload,
    health two_cfg (world_with "") (run_trace two_cfg [Connect "A"; Connect "B"; Close "A"])
      = (run_trace two_cfg [Connect "A"; Connect "B"; Close "A"], Done (Send 200 payload))
    ∧ get payload "activeConnections" = Return (Num 1).
Proof.
  destruct (stats_report_open_sessions two_cfg [Connect "A"; Connect "B"; Close "A"]
              (world_with "")) as (payload & Hh & Hn & _); [reflexivity|].
  exists payload. split; [exact Hh | exact Hn].
Defined.

Lemma guard_passes_iff_witness :
  authorizeRequest sample_cfg
    (with_authorization (Some "Bearer your-secure-token-here") (bare GET "/sse")) = Next
  ∧ authorizeRequest (set_auth true None sample_cfg)
      (with_authorization (Some "Bearer your-secure-token-here") (bare GET "/sse")) ≠ Next.
Proof.
  split.
  - apply (guard_passes_iff sample_cfg). right.
    exists "your-secure-token-here". split; reflexivity.
  - apply (guard_passes_iff (set_auth true None sample_cfg)); reflexivity.
Defined.

Lemma normalized_descriptor_complete_witness :
  descriptor "bare" (Str "") (Obj []) (Arr [])
  = descriptor "bare"
      (source_description (Obj [("parameters", Obj [("required", Str "keyword")])]))
      (source_properties (Obj [("parameters", Obj [("required", Str "keyword")])]))
      (source_required (Obj [("parameters", Obj [("required", Str "keyword")])]))
  ∧ descriptor "keywords" (Str "Keyword ideas")
      (Obj [("keyword", Obj [("type", Str "string")])]) (Arr [Str "keyword"])
    = descriptor "keywords" (source_description keyword_tool)
        (source_properties keyword_tool) (source_required keyword_tool).
Proof.
  split.
  - apply (normalized_descriptor_complete
             ("bare", Obj [("parameters", Obj [("required", Str "keyword")])])).
    reflexivity.
  - apply (normalized_descriptor_complete ("keywords", keyword_tool)).
    reflexivity.
Defined.

Lemma extraction_keeps_names_and_order_witness :
  Forall2 (λ kv e, get e "name" = Return (Str (fst kv)))
    [("keywords", keyword_tool); ("bare", Num 7)]
    [descriptor "keywords" (Str "Keyword ideas")
       (Obj [("keyword", Obj [("type", Str "string")])]) (Arr [Str "keyword"]);
     descriptor "bare" (Str "") (Obj []) (Arr [])].
Proof.
  apply (extraction_keeps_names_and_order
           [("keywords", keyword_tool); ("bare", Num 7)]).
  reflexivity.
Defined.

Lemma extraction_throws_iff_witness :
  ∃ err, extractTools (Obj [("keywords", keyword_tool); ("broken", Undefined)]) = Throw err.
Proof.
  apply (extraction_throws_iff [("keywords", keyword_tool); ("broken", Undefined)]).
  reflexivity.
Defined.

Lemma introspection_fails_on_nullish_first_tool_witness :
  ∃ err,
    toolsInfo sample_cfg (world_tools (Obj [("broken", Null); ("keywords", keyword_tool)])) init
      = (init, Throw err)
    ∧ outcome (app sample_cfg (bare GET "/tools-info")
                 (world_tools (Obj [("broken", Null); ("keywords", keyword_tool)])) init)
      = Send 500 (json_error "Internal Server Error" (err_message err)).
Proof.
  destruct (introspection_fails_on_nullish_first_tool sample_cfg
              (world_tools (Obj [("broken", Null); ("keywords", keyword_tool)])) init
              "broken" Null [("keywords", keyword_tool)] eq_refl) as [Hfail _].
  destruct (Hfail eq_refl) as (err & Hthrow & Happ).
  exists err. split; [exact Hthrow|].
  exact (Happ (bare GET "/tools-info") eq_refl eq_refl).
Defined.

Lemma auth_needs_exact_true_witness :
  authorizeRequest (load_config parseInt_decimal odd_env) (bare GET "/sse") = Next.
Proof. apply (auth_needs_exact_true parseInt_decimal odd_env). discriminate. Defined.

Lemma errors_disclosed_by_default_witness :
  snd (errorHandler (load_config parseInt_decimal empty_env) (world_with "") type_error)
    = Send 500 (json_error "Internal Server Error"
                  "transport.handlePostMessage is not a function")
  ∧ snd (errorHandler (load_config parseInt_decimal odd_env) (world_with "") type_error)
    = Send 500 (json_error "Internal Server Error" "An unexpected error occurred").
Proof.
  split.
  - apply (errors_disclosed_by_default parseInt_decimal empty_env). left. reflexivity.
  - apply (errors_disclosed_by_default parseInt_decimal odd_env (world_with "")
             type_error) with (mode := "production"); [reflexivity | discriminate..].
Defined.

